(** * OpenAiServer: the document Q&A pipeline of [src/index.js]

    A shallow embedding of the phrase stripper, the chitchat classifier, the
    similarity index with its retrieval policy, and the streaming response
    controller, followed by the properties established about them. *)

From Stdlib Require Import List Bool Arith NArith ZArith Lia.
From Stdlib Require Import Ascii String.
From Stdlib Require Import Floats.
From Stdlib Require Import Permutation.
Import ListNotations.

Set Warnings "-inexact-float".

Set Implicit Arguments.

(** ** JavaScript strings

    A JavaScript string is a sequence of UTF-16 code units; [length], [slice],
    the regular expressions without the [u] flag and [trim] all work on code
    units. *)
Module Js.

Definition char := N.
Definition jsstring := list char.

(** An ASCII literal as a JavaScript string. *)
Definition str (s : string) : jsstring :=
  List.map N_of_ascii (list_ascii_of_string s).

(** U+2019, the typographic apostrophe of [leadingPhrases[0]]. *)
Definition rsquo : char := 8217%N.

Definition between (lo hi c : N) : bool := (N.leb lo c && N.leb c hi)%bool.

(** [\s] of a regular expression, and the characters [trim] removes:
    WhiteSpace and LineTerminator of ECMA-262. *)
Definition is_space (c : char) : bool :=
  (between 9 13 c || N.eqb c 32 || N.eqb c 160 || N.eqb c 5760
   || between 8192 8202 c || N.eqb c 8232 || N.eqb c 8233 || N.eqb c 8239
   || N.eqb c 8287 || N.eqb c 12288 || N.eqb c 65279)%bool.

(** [\w] without the [u] flag: [A-Za-z0-9_]. *)
Definition is_word (c : char) : bool :=
  (between 65 90 c || between 97 122 c || between 48 57 c || N.eqb c 95)%bool.

(** Canonicalize of ECMA-262 for an [i] pattern without the [u] flag, on a
    pattern character below 128: a lower-case ASCII letter becomes its capital.
    (A code unit of 128 or more never canonicalizes to one below 128, so only
    the two ASCII cases of a letter match it.) *)
Definition upper (c : char) : char :=
  if between 97 122 c then (c - 32)%N else c.

(** Does input character [c] match pattern character [p] under the [i] flag? *)
Definition ci_eq (p c : N) : bool :=
  (N.ltb c 128 && N.eqb (upper c) (upper p) || N.eqb c p)%bool.

Fixpoint drop_while (p : char -> bool) (s : jsstring) : jsstring :=
  match s with
  | c :: s' => if p c then drop_while p s' else s
  | [] => []
  end.

(** [String.prototype.trim]. *)
Definition trim (s : jsstring) : jsstring :=
  rev (drop_while is_space (rev (drop_while is_space s))).

(** [s.slice(n)] for [0 <= n]. *)
Definition slice_from (n : nat) (s : jsstring) : jsstring := skipn n s.

Definition eqb (a b : jsstring) : bool :=
  if list_eq_dec N.eq_dec a b then true else false.

(** [String.prototype.toLowerCase] on the ASCII range. Code units of 128 and
    more are left as they are here; the Unicode case tables are not part of
    this development, so on such input the result is an approximation. *)
Definition toLowerCase (s : jsstring) : jsstring :=
  List.map (fun c => if between 65 90 c then (c + 32)%N else c) s.

(** [s.split(/\s+/)]: the pieces between maximal runs of white space, empty
    pieces at either end included. *)
Fixpoint split_go (in_sep : bool) (cur : jsstring) (s : jsstring)
  : list jsstring :=
  match s with
  | [] => [rev cur]
  | c :: s' =>
      if is_space c
      then if in_sep then split_go true cur s'
           else rev cur :: split_go true [] s'
      else split_go false (c :: cur) s'
  end.

Definition split_space (s : jsstring) : list jsstring := split_go false [] s.

(** [t] is what is left of [s] once a prefix is removed. *)
Definition is_suffix (t s : jsstring) : Prop := exists p, s = p ++ t.

(** Truthiness of a string. *)
Definition nonempty (s : jsstring) : bool :=
  match s with [] => false | _ :: _ => true end.

End Js.

(** ** Regular expressions

    The fragment of JavaScript's backtracking regular expressions that the
    source uses: character classes, concatenation, ordered alternation, the
    greedy [?], greedy [*] and [+] over a character class, [\b] and [$]. The
    matcher is in continuation-passing style, so that alternatives are tried
    in the engine's priority order and the first success is the match. *)
Module Regex.
Import Js.

Inductive regex : Type :=
| Eps
| Cls (p : char -> bool)
| Cat (r1 r2 : regex)
| Alt (r1 r2 : regex)
| Star (p : char -> bool)
| WordB
| Eos.

Definition Opt (r : regex) : regex := Alt r Eps.
Definition Plus (p : char -> bool) : regex := Cat (Cls p) (Star p).

(** A literal pattern character, with and without the [i] flag. *)
Definition Chr (c : N) : regex := Cls (N.eqb c).
Definition ChrI (c : N) : regex := Cls (ci_eq c).

Fixpoint cat_all (rs : list regex) : regex :=
  match rs with
  | [] => Eps
  | [r] => r
  | r :: rs' => Cat r (cat_all rs')
  end.

Fixpoint alt_all (rs : list regex) : regex :=
  match rs with
  | [] => Cls (fun _ => false)
  | [r] => r
  | r :: rs' => Alt r (alt_all rs')
  end.

(** A literal word under the [i] flag. *)
Definition LitI (s : string) : regex := cat_all (List.map ChrI (str s)).

Definition word_opt (c : option char) : bool :=
  match c with Some x => is_word x | None => false end.

Section Matcher.
Variable A : Type.

(** Greedy [p*]: take as many characters as match, give back one at a time. *)
Fixpoint star (p : char -> bool) (prev : option char) (s : jsstring)
  (k : option char -> jsstring -> option A) : option A :=
  match s with
  | c :: s' =>
      if p c
      then match star p (Some c) s' k with
           | Some x => Some x
           | None => k prev s
           end
      else k prev s
  | [] => k prev s
  end.

(** [exec r prev s k]: match [r] at the front of [s], where [prev] is the
    character before it (none at the start of the input), and continue with
    [k] on what is left. *)
Fixpoint exec (r : regex) (prev : option char) (s : jsstring)
  (k : option char -> jsstring -> option A) : option A :=
  match r with
  | Eps => k prev s
  | Cls p =>
      match s with
      | c :: s' => if p c then k (Some c) s' else None
      | [] => None
      end
  | Cat r1 r2 => exec r1 prev s (fun prev' s' => exec r2 prev' s' k)
  | Alt r1 r2 =>
      match exec r1 prev s k with
      | Some x => Some x
      | None => exec r2 prev s k
      end
  | Star p => star p prev s k
  | WordB =>
      if xorb (word_opt prev) (word_opt (hd_error s)) then k prev s else None
  | Eos => match s with [] => k prev s | _ :: _ => None end
  end.

End Matcher.

(** A pattern [/^r/] against [s]: what follows the match, if there is one. *)
Definition match_start (r : regex) (s : jsstring) : option jsstring :=
  exec r None s (fun _ rest => Some rest).

(** [s.replace(re, empty)] for the pattern [re = /^r/] and the empty
    replacement string. *)
Definition remove_start (r : regex) (s : jsstring) : jsstring :=
  match match_start r s with
  | Some rest => rest
  | None => s
  end.

(** [/r/.test(s)] for a pattern without [^]: the first position where it
    matches. *)
Fixpoint search (r : regex) (prev : option char) (s : jsstring) : bool :=
  match exec r prev s (fun _ _ => Some tt) with
  | Some _ => true
  | None =>
      match s with
      | c :: s' => search r (Some c) s'
      | [] => false
      end
  end.

Definition test_start (r : regex) (s : jsstring) : bool :=
  match match_start r s with Some _ => true | None => false end.

End Regex.

(** ** The phrase stripper, [stripLeadingPhrases] *)
Module Stripper.
Import Js Regex.

Definition in_chars (cs : string) (c : char) : bool :=
  existsb (N.eqb c) (str cs).

(** The class [[\s,.:;!()-]] that closes rules 1 to 4. *)
Definition sep (c : char) : bool := (is_space c || in_chars ",.:;!()-" c)%bool.

Definition ws_plus : regex := Plus is_space.
Definition ws_star : regex := Star is_space.

(** [/^\s+/] *)
Definition re_space : regex := ws_plus.

(** [/^(?:I\s*(?:don'?t|don’t|do\s+not|do not|do|dont|i\s+don))\b[\s,.:;!()-]*/i] *)
Definition re_negation : regex :=
  cat_all
    [ LitI "I"; ws_star;
      alt_all
        [ cat_all [LitI "don"; Opt (Chr 39); LitI "t"];
          cat_all [LitI "don"; Chr rsquo; LitI "t"];
          cat_all [LitI "do"; ws_plus; LitI "not"];
          cat_all [LitI "do"; Chr 32; LitI "not"];
          LitI "do";
          LitI "dont";
          cat_all [LitI "i"; ws_plus; LitI "don"] ];
      WordB; Star sep ].

(** [/^(?:know(?:\s+based\s+on\s+the\s+provided\s+documents\.?)?|\bknow\b)[\s,.:;!()-]*/i] *)
Definition re_know : regex :=
  cat_all
    [ Alt
        (Cat (LitI "know")
           (Opt (cat_all
                   [ ws_plus; LitI "based"; ws_plus; LitI "on"; ws_plus;
                     LitI "the"; ws_plus; LitI "provided"; ws_plus;
                     LitI "documents"; Opt (Chr 46) ])))
        (cat_all [WordB; LitI "know"; WordB]);
      Star sep ].

(** The class [['’`’]] of rule 3. *)
Definition apostrophe (c : char) : bool :=
  (in_chars "'`" c || N.eqb c rsquo)%bool.

(** [/^(?:n'?t|['’`’]t|n’t)\b[\s,.:;!()-]*/i] *)
Definition re_contraction : regex :=
  cat_all
    [ alt_all
        [ cat_all [LitI "n"; Opt (Chr 39); LitI "t"];
          cat_all [Cls apostrophe; LitI "t"];
          cat_all [LitI "n"; Chr rsquo; LitI "t"] ];
      WordB; Star sep ].

(** [/^(?:don|i|i\s+don)\b[\s,.:;!()-]*/i] *)
Definition re_leftover : regex :=
  cat_all
    [ alt_all
        [ LitI "don"; LitI "i"; cat_all [LitI "i"; ws_plus; LitI "don"] ];
      WordB; Star sep ].

(** The class of rule 5: white space, the double quote (code 34), the
    apostrophe, the backtick, U+2019, and [. , : ; - ( )]. *)
Definition punct (c : char) : bool :=
  (is_space c || N.eqb c 34%N || in_chars "'`.,:;-()" c || N.eqb c rsquo)%bool.

Definition re_punct : regex := Plus punct.

Definition stripLeadingPhrases (text : jsstring) : jsstring :=
  match text with
  | [] => text
  | _ :: _ =>
      let t := text in
      let t := remove_start re_space t in
      let t := remove_start re_negation t in
      let t := remove_start re_know t in
      let t := remove_start re_contraction t in
      let t := remove_start re_leftover t in
      let t := remove_start re_punct t in
      t
  end.

(** A string on whose first character no rule can start: it is empty, or
    begins with neither a character of rule 5 (white space, quotes,
    punctuation) nor a letter i, d, k or n in either case. *)
Definition inert_head (t : jsstring) : bool :=
  match t with
  | [] => true
  | c :: _ =>
      negb (punct c
            || existsb (fun p => ci_eq p c) [73; 105; 100; 107; 110]%N)
  end.

End Stripper.

(** ** The chitchat classifier, [isLikelyChitchat] *)
Module Chitchat.
Import Js Regex.

(** [/^(hi|hello|hey|iya|hallo|good (morning|afternoon|evening)|thanks|thank you|bye|goodbye|sup|yo|what's up|whats up)[\s!.,?]*$/i] *)
Definition greetingRegex : regex :=
  cat_all
    [ alt_all
        [ LitI "hi"; LitI "hello"; LitI "hey"; LitI "iya"; LitI "hallo";
          Cat (LitI "good ")
            (alt_all [LitI "morning"; LitI "afternoon"; LitI "evening"]);
          LitI "thanks"; LitI "thank you"; LitI "bye"; LitI "goodbye";
          LitI "sup"; LitI "yo"; LitI "what's up"; LitI "whats up" ];
      Star (fun c => (is_space c || Stripper.in_chars "!.,?" c)%bool);
      Eos ].

(** [/\b(who|what|when|where|why|how|which|whom|whose)\b/i] *)
Definition questionWords : regex :=
  cat_all
    [ WordB;
      alt_all
        [ LitI "who"; LitI "what"; LitI "when"; LitI "where"; LitI "why";
          LitI "how"; LitI "which"; LitI "whom"; LitI "whose" ];
      WordB ].

Definition isLikelyChitchat (question : jsstring) : bool :=
  if negb (nonempty question) then false
  else
    let s := toLowerCase (trim question) in
    if test_start greetingRegex s then true
    else
      let tokens := List.filter nonempty (split_space s) in
      if (Nat.eqb (List.length tokens) 1
          && Nat.leb (List.length (hd [] tokens)) 4)%bool
      then true
      else if (Nat.leb (List.length s) 10
               && negb (search questionWords None s))%bool
      then true
      else false.

End Chitchat.

(** ** The similarity index, [SimpleVectorStore]

    Scores are IEEE doubles, as JavaScript numbers are. *)
Module Index.
Import Js.
Local Open Scope float_scope.

Record Document : Type := { pageContent : jsstring }.

Record SimpleVectorStore : Type :=
  { vectors : list (list float);
    documents : list Document }.

(** [new SimpleVectorStore()] *)
Definition empty_store : SimpleVectorStore :=
  {| vectors := []; documents := [] |}.


(** [a.reduce((sum, val, i) => f(sum, val, i), 0)] *)
Fixpoint reduce_from (f : float -> float -> nat -> float) (i : nat)
  (sum : float) (a : list float) : float :=
  match a with
  | [] => sum
  | val :: a' => reduce_from f (S i) (f sum val i) a'
  end.

(** [b[i]] in arithmetic: [undefined] becomes NaN. *)
Definition at_index (b : list float) (i : nat) : float := List.nth i b nan.

Definition cosineSimilarity (a b : list float) : float :=
  let dot := reduce_from (fun sum val i => sum + val * at_index b i) 0 0 a in
  let normA := PrimFloat.sqrt (reduce_from (fun sum val _ => sum + val * val) 0 0 a) in
  let normB := PrimFloat.sqrt (reduce_from (fun sum val _ => sum + val * val) 0 0 b) in
  dot / (normA * normB).

(** One entry of the score list; [this.documents[i]] is [undefined] where the
    two arrays are not aligned. *)
Record Scored : Type := { doc : option Document; score : float }.

(** The comparator [(a, b) => b.score - a.score]. *)
Definition compareFn (a b : Scored) : float := score b - score a.

(** [scores.sort(compareFn)]: [Array.prototype.sort] is stable, and puts [a]
    after [b] only when [compareFn(a, b) > 0]. (With a NaN among the scores
    the comparator is not consistent and the order is left to the engine.) *)
Fixpoint insert_desc (x : Scored) (ys : list Scored) : list Scored :=
  match ys with
  | [] => [x]
  | y :: ys' =>
      if (0 <? compareFn x y) then y :: insert_desc x ys'
      else x :: ys
  end.

Definition sort_desc (l : list Scored) : list Scored :=
  List.fold_right insert_desc [] l.

Fixpoint map_index (A B : Type) (f : A -> nat -> B) (i : nat) (l : list A)
  : list B :=
  match l with
  | [] => []
  | x :: l' => f x i :: map_index f (S i) l'
  end.

Inductive error : Type :=
| EmbeddingFailure   (* [throw new Error("Failed to get embedding")] *)
| TypeError.         (* a property read on [undefined] *)

(** [getScoresForQuery], given what [fetchEmbedding(query)] produced: the
    embedding, or nothing when it threw. *)
Definition getScoresForQuery (st : SimpleVectorStore)
  (qEmbedding : option (list float)) : error + list Scored :=
  match qEmbedding with
  | None => inl EmbeddingFailure
  | Some q =>
      inr (sort_desc
             (map_index
                (fun vec i =>
                   {| doc := List.nth_error (documents st) i;
                      score := cosineSimilarity vec q |})
                0 (vectors st)))
  end.

End Index.

(** ** The retrieval policy *)
Module Retrieval.
Import Js Index.
Local Open Scope float_scope.

(** [x || 0] on a number: 0, -0 and NaN are falsy. *)
Definition or_zero (x : float) : float :=
  if ((x =? 0) || negb (x =? x))%bool then 0 else x.

(** [scores[0]?.score || 0] *)
Definition topScoreOf (scores : list Scored) : float :=
  match scores with
  | s :: _ => or_zero (score s)
  | [] => 0
  end.

(** [topScore > 0.9 ? 0.75 : topScore > 0.8 ? 0.7 : minScore] *)
Definition adaptiveThreshold (minScore topScore : float) : float :=
  if 0.9 <? topScore then 0.75
  else if 0.8 <? topScore then 0.7
  else minScore.

(** [l.slice(0, k)] for an integer [k]; a negative [k] counts from the end. *)
Definition slice0 (A : Type) (k : Z) (l : list A) : list A :=
  if (k <? 0)%Z
  then firstn (Z.to_nat (Z.max (Z.of_nat (List.length l) + k) 0)) l
  else firstn (Z.to_nat k) l.

(** The choice shared by [getRelevantDocuments] and the docs branch of
    [askDocsStream]. *)
Definition choose (topK : Z) (threshold : float) (scores : list Scored)
  : list Scored :=
  let filtered :=
    slice0 topK (List.filter (fun s => threshold <=? score s) scores) in
  let topMatches := slice0 topK scores in
  if Nat.ltb 0 (List.length filtered) then filtered else topMatches.

(** [asRetriever(topK, minScore).getRelevantDocuments], on the score list
    that [getScoresForQuery] returned. *)
Definition getRelevantDocuments (topK : Z) (minScore : float)
  (scores : list Scored) : list (option Document) :=
  let topScore := topScoreOf scores in
  let threshold := adaptiveThreshold minScore topScore in
  List.map doc (choose topK threshold scores).

(** The defaults of [asRetriever(topK = 5, minScore = 0.5)]. *)
Definition default_topK : Z := 5.
Definition default_minScore : float := 0.5.

Definition MIN_SCORE_FOR_DOCS : float := 0.25.

(** [config.topK || 5] *)
Definition effective_topK (config_topK : Z) : Z :=
  if (config_topK =? 0)%Z then 5%Z else config_topK.

(** The decision of [askDocsStream] once the scores are known: general
    knowledge, or the chosen entries for the document prompt. *)
Inductive decision : Type :=
| General
| Docs (chosen : list Scored).

Definition decide (config_topK : Z) (scores : list Scored) : decision :=
  let topScore := topScoreOf scores in
  if topScore <? MIN_SCORE_FOR_DOCS then General
  else
    let topK := effective_topK config_topK in
    let threshold := adaptiveThreshold 0.2 topScore in
    Docs (choose topK threshold scores).

End Retrieval.

(** ** The streaming response controller, [streamModelResponse] *)
Module Stream.
Import Js Stripper.

(** What [res.write] is given. *)
Inductive sse : Type :=
| Comment                            (* [: processing] *)
| Data (source content : jsstring)   (* [data: {source, content}], as JSON *)
| Done                               (* [data: [DONE]] *)
| ErrorLine (statusText : jsstring). (* [data: Error: statusText] *)

(** A [setTimeout] handle held in a variable: [null], waiting, or fired (the
    variable still holds it). *)
Inductive handle : Type := Unset | Pending | Fired.

Definition handle_set (h : handle) : bool :=
  match h with Unset => false | _ => true end.

Record session : Type :=
    (* the closure variables of [streamModelResponse] *)
  { buffer : jsstring;
    lastSentLen : nat;
    startedStreaming : bool;
    flushTimer : bool;
    startTimer : handle;
    headersSent : bool;
    ended : bool;
    statusPingSent : bool;
    clientClosed : bool;
    (* the response object [res] *)
    writableEnded : bool;
    written : list sse;
    closeListener : bool;
    errorListener : bool;
    (* how many times [reader.cancel()] was called *)
    cancels : nat }.

Definition set_buffer (v : jsstring) (s : session) : session :=
  Build_session v (lastSentLen s) (startedStreaming s) (flushTimer s)
    (startTimer s) (headersSent s) (ended s) (statusPingSent s)
    (clientClosed s) (writableEnded s) (written s) (closeListener s)
    (errorListener s) (cancels s).

Definition set_lastSentLen (v : nat) (s : session) : session :=
  Build_session (buffer s) v (startedStreaming s) (flushTimer s) (startTimer
    s) (headersSent s) (ended s) (statusPingSent s) (clientClosed s)
    (writableEnded s) (written s) (closeListener s) (errorListener s)
    (cancels s).

Definition set_startedStreaming (v : bool) (s : session) : session :=
  Build_session (buffer s) (lastSentLen s) v (flushTimer s) (startTimer s)
    (headersSent s) (ended s) (statusPingSent s) (clientClosed s)
    (writableEnded s) (written s) (closeListener s) (errorListener s)
    (cancels s).

Definition set_flushTimer (v : bool) (s : session) : session :=
  Build_session (buffer s) (lastSentLen s) (startedStreaming s) v
    (startTimer s) (headersSent s) (ended s) (statusPingSent s)
    (clientClosed s) (writableEnded s) (written s) (closeListener s)
    (errorListener s) (cancels s).

Definition set_startTimer (v : handle) (s : session) : session :=
  Build_session (buffer s) (lastSentLen s) (startedStreaming s) (flushTimer
    s) v (headersSent s) (ended s) (statusPingSent s) (clientClosed s)
    (writableEnded s) (written s) (closeListener s) (errorListener s)
    (cancels s).

Definition set_headersSent (v : bool) (s : session) : session :=
  Build_session (buffer s) (lastSentLen s) (startedStreaming s) (flushTimer
    s) (startTimer s) v (ended s) (statusPingSent s) (clientClosed s)
    (writableEnded s) (written s) (closeListener s) (errorListener s)
    (cancels s).

Definition set_ended (v : bool) (s : session) : session :=
  Build_session (buffer s) (lastSentLen s) (startedStreaming s) (flushTimer
    s) (startTimer s) (headersSent s) v (statusPingSent s) (clientClosed s)
    (writableEnded s) (written s) (closeListener s) (errorListener s)
    (cancels s).

Definition set_statusPingSent (v : bool) (s : session) : session :=
  Build_session (buffer s) (lastSentLen s) (startedStreaming s) (flushTimer
    s) (startTimer s) (headersSent s) (ended s) v (clientClosed s)
    (writableEnded s) (written s) (closeListener s) (errorListener s)
    (cancels s).

Definition set_clientClosed (v : bool) (s : session) : session :=
  Build_session (buffer s) (lastSentLen s) (startedStreaming s) (flushTimer
    s) (startTimer s) (headersSent s) (ended s) (statusPingSent s) v
    (writableEnded s) (written s) (closeListener s) (errorListener s)
    (cancels s).

Definition set_writableEnded (v : bool) (s : session) : session :=
  Build_session (buffer s) (lastSentLen s) (startedStreaming s) (flushTimer
    s) (startTimer s) (headersSent s) (ended s) (statusPingSent s)
    (clientClosed s) v (written s) (closeListener s) (errorListener s)
    (cancels s).

Definition set_written (v : list sse) (s : session) : session :=
  Build_session (buffer s) (lastSentLen s) (startedStreaming s) (flushTimer
    s) (startTimer s) (headersSent s) (ended s) (statusPingSent s)
    (clientClosed s) (writableEnded s) v (closeListener s) (errorListener s)
    (cancels s).

Definition set_closeListener (v : bool) (s : session) : session :=
  Build_session (buffer s) (lastSentLen s) (startedStreaming s) (flushTimer
    s) (startTimer s) (headersSent s) (ended s) (statusPingSent s)
    (clientClosed s) (writableEnded s) (written s) v (errorListener s)
    (cancels s).

Definition set_cancels (v : nat) (s : session) : session :=
  Build_session (buffer s) (lastSentLen s) (startedStreaming s) (flushTimer
    s) (startTimer s) (headersSent s) (ended s) (statusPingSent s)
    (clientClosed s) (writableEnded s) (written s) (closeListener s)
    (errorListener s) v.

Definition STREAM_START_THRESHOLD : nat := 128.
Definition MIN_SEND_DELTA : Z := 8.

(** The sentence of the terminal fallback, with U+2019 as the source has it. *)
Definition fallback_sentence : jsstring :=
  str "I don" ++ [rsquo] ++ str "t know based on the provided documents.".

Definition src_docs : jsstring := str "docs".
Definition src_openai : jsstring := str "openai".

(** The guard that opens [safeWrite], [sendChunk] and [flushIfNeeded]. *)
Definition blocked (s : session) : bool :=
  (ended s || writableEnded s || clientClosed s)%bool.

Definition onClientClose (s : session) : session :=
  set_cancels (S (cancels s)) (set_ended true (set_clientClosed true s)).

Definition ensureHeaders (s : session) : session :=
  if (headersSent s || writableEnded s || clientClosed s)%bool then s
  else set_headersSent true s.

(** [safeWrite]; its boolean result is used by no caller. *)
Definition safeWrite (data : sse) (s : session) : session :=
  if blocked s then s else set_written (written s ++ [data]) s.

Definition sendPing (s : session) : session :=
  if negb (statusPingSent s)
  then set_statusPingSent true (safeWrite Comment s)
  else s.

Definition sendChunk (source chunk : jsstring) (s : session) : session :=
  if (negb (nonempty chunk) || blocked s)%bool then s
  else safeWrite (Data source chunk) (sendPing (ensureHeaders s)).

Definition startPeriodicFlush (s : session) : session :=
  if negb (flushTimer s) then set_flushTimer true s else s.

Definition clearTimers (s : session) : session :=
  let s := if flushTimer s then set_flushTimer false s else s in
  if handle_set (startTimer s) then set_startTimer Unset s else s.

(** The first branch of [flushIfNeeded] once its test has passed: enter the
    streaming state on the stripped buffer and send what it holds. *)
Definition beginStreaming (source stripped : jsstring) (s : session)
  : session :=
  let s := set_startedStreaming true s in
  let s := set_buffer stripped s in
  let toSend := trim (slice_from (lastSentLen s) (buffer s)) in
  let s :=
    if nonempty toSend
    then set_lastSentLen (List.length (buffer s)) (sendChunk source toSend s)
    else s in
  startPeriodicFlush s.

(** The second branch of [flushIfNeeded] once its test has passed: forward
    what the buffer holds beyond [lastSentLen]. *)
Definition forwardIncrement (source : jsstring) (s : session) : session :=
  let chunk := slice_from (lastSentLen s) (buffer s) in
  let chunk := stripLeadingPhrases chunk in
  let chunk := trim chunk in
  let s := if nonempty chunk then sendChunk source chunk s else s in
  set_lastSentLen (List.length (buffer s)) s.

Definition flushIfNeeded (source : jsstring) (force : bool) (s : session)
  : session :=
  if blocked s then s
  else if negb (startedStreaming s) then
    let stripped := stripLeadingPhrases (buffer s) in
    if (Nat.leb STREAM_START_THRESHOLD (List.length (trim stripped))
        || force && Nat.ltb 0 (List.length (trim stripped)))%bool
    then beginStreaming source stripped s
    else s
  else
    let newLen := List.length (buffer s) in
    let delta := (Z.of_nat newLen - Z.of_nat (lastSentLen s))%Z in
    if ((MIN_SEND_DELTA <=? delta)%Z || force)%bool
    then forwardIncrement source s
    else s.

(** One [data: ] line of an upstream chunk, after [JSON.parse]: the end
    marker, a payload with its [choices[0].delta.content] (as a string, empty
    when there is none), or a line that does not parse. *)
Inductive line : Type :=
| LDone
| LContent (content : jsstring)
| LBad.

(** The [for] loop of the document path. *)
Fixpoint docs_lines (source : jsstring) (ls : list line) (s : session)
  : session :=
  match ls with
  | [] => s
  | l :: ls' =>
      if clientClosed s then s
      else
        match l with
        | LDone => s
        | LBad => docs_lines source ls' s
        | LContent content =>
            if nonempty content
            then
              let s := set_buffer (buffer s ++ content) s in
              let s :=
                if negb (startedStreaming s)
                then set_buffer (stripLeadingPhrases (buffer s)) s
                else s in
              docs_lines source ls' (flushIfNeeded source false s)
            else docs_lines source ls' s
        end
  end.

(** The [for] loop of the general-knowledge path. *)
Fixpoint openai_lines (source : jsstring) (ls : list line) (s : session)
  : session :=
  match ls with
  | [] => s
  | l :: ls' =>
      if clientClosed s then s
      else
        match l with
        | LDone => s
        | LBad => openai_lines source ls' s
        | LContent content =>
            if (nonempty content && negb (clientClosed s)
                && negb (writableEnded s))%bool
            then openai_lines source ls' (safeWrite (Data source content) s)
            else openai_lines source ls' s
        end
  end.

(** [safeWrite("data: [DONE]\n\n"); res.end()] behind its guard, then
    [ended = true; res.removeListener("close", onClientClose)]. *)
Definition terminate (s : session) : session :=
  let s :=
    if negb (blocked s)
    then set_writableEnded true (safeWrite Done s)
    else s in
  set_closeListener false (set_ended true s).

(** The outer [finally] block. *)
Definition finally_outer (source : jsstring) (s : session) : session :=
  let s := clearTimers s in
  let s := flushIfNeeded source true s in
  let s :=
    if (negb (startedStreaming s) && Js.eqb source src_docs
        && negb (clientClosed s))%bool
    then sendChunk source fallback_sentence (ensureHeaders s)
    else s in
  terminate s.

(** The [finally] block of the general-knowledge path; its [return] leaves
    through the outer [finally]. *)
Definition finally_openai (source : jsstring) (s : session) : session :=
  finally_outer source (terminate (clearTimers s)).

Definition finish (source : jsstring) (s : session) : session :=
  if Js.eqb source src_openai then finally_openai source s
  else finally_outer source s.

(** Callbacks that the event loop may run while the handler is suspended in
    [await reader.read()], or after it has returned. *)
Inductive event : Type :=
| EvClose          (* [close] on the response *)
| EvError          (* [error] on the response *)
| EvFlushTick      (* the interval of [startPeriodicFlush] *)
| EvStartTimeout.  (* the timeout of [START_TIMEOUT_MS] *)

Definition deliver (source : jsstring) (e : event) (s : session) : session :=
  match e with
  | EvClose => if closeListener s then onClientClose s else s
  | EvError => if errorListener s then onClientClose s else s
  | EvFlushTick => if flushTimer s then flushIfNeeded source true s else s
  | EvStartTimeout =>
      match startTimer s with
      | Pending =>
          let s := set_startTimer Fired s in
          if (negb (startedStreaming s) && negb (clientClosed s))%bool
          then flushIfNeeded source true s
          else s
      | _ => s
      end
  end.

(** How the pending [reader.read()] settles. *)
Inductive read_result : Type :=
| RChunk (lines : list line)
| RDone
| RThrow.

Inductive input : Type :=
| Callback (e : event)
| Read (r : read_result).

Inductive phase : Type := Reading | Returned.

Record machine : Type := { at_ : phase; st : session }.

(** After a chunk, the [while (!clientClosed)] test. *)
Definition loop_test (source : jsstring) (s : session) : machine :=
  if clientClosed s then {| at_ := Returned; st := finish source s |}
  else {| at_ := Reading; st := s |}.

Definition step (source : jsstring) (i : input) (c : machine) : machine :=
  match at_ c, i with
  | _, Callback e => {| at_ := at_ c; st := deliver source e (st c) |}
  | Reading, Read (RChunk ls) =>
      if Js.eqb source src_openai
      then loop_test source (openai_lines source ls (st c))
      else loop_test source (docs_lines source ls (st c))
  | Reading, Read RDone => {| at_ := Returned; st := finish source (st c) |}
  | Reading, Read RThrow => {| at_ := Returned; st := finish source (st c) |}
  | Returned, Read _ => c
  end.

Definition run (source : jsstring) (ins : list input) (c : machine) : machine :=
  List.fold_left (fun c i => step source i c) ins c.

(** The closure variables at their declarations, on the response that the
    route handler passes in: nothing written, not ended, no listener. *)
Definition fresh : session :=
  {| buffer := []; lastSentLen := 0; startedStreaming := false;
     flushTimer := false; startTimer := Unset; headersSent := false;
     ended := false; statusPingSent := false; clientClosed := false;
     writableEnded := false; written := []; closeListener := false;
     errorListener := false; cancels := 0 |}.

(** [res.on("close", ...); res.on("error", ...)] *)
Definition listen (s : session) : session :=
  Build_session (buffer s) (lastSentLen s) (startedStreaming s)
    (flushTimer s) (startTimer s) (headersSent s) (ended s)
    (statusPingSent s) (clientClosed s) (writableEnded s) (written s)
    true true (cancels s).

(** From the answer of [fetch] to the first [await reader.read()]. *)
Definition start (source : jsstring) (ok : bool) (statusText : jsstring)
  : machine :=
  if negb ok then
    {| at_ := Returned;
       st := set_writableEnded true
               (set_written [ErrorLine statusText] fresh) |}
  else
    let s := listen fresh in
    if Js.eqb source src_openai
    then loop_test source (sendPing (ensureHeaders s))
    else loop_test source (set_startTimer Pending s).

(** [streamModelResponse(prompt, source, res)] against an upstream that
    answers with [ok] and [statusText] and then behaves as [ins] says. *)
Definition streamModelResponse (source : jsstring) (ok : bool)
  (statusText : jsstring) (ins : list input) : machine :=
  run source ins (start source ok statusText).

End Stream.

(** ** The entry point, [askDocsStream] *)
Module Ask.
Import Js Chitchat Index Retrieval Stream.

(** [agent/agentConfig.js], as far as [askDocsStream] reads it. *)
Record Config : Type := { topK : Z }.

Definition config : Config := {| topK := 4 |}.

Definition nl : jsstring := [10%N].

Definition general_prompt (question : jsstring) : jsstring :=
  nl ++ str "No relevant document context was found." ++ nl ++ nl
  ++ str "Please answer using general knowledge:" ++ nl
  ++ question ++ nl.

Definition docs_prompt (context question : jsstring) : jsstring :=
  nl ++ str "You are a helpful assistant. Answer the question below strictly based on the given document context."
  ++ nl ++ nl ++ str "Document Context:" ++ nl
  ++ context ++ nl ++ nl
  ++ str "Question: " ++ question ++ nl ++ nl
  ++ str "If the answer is not clearly stated, respond exactly with:" ++ nl
  ++ [34%N] ++ fallback_sentence ++ [34%N] ++ nl.

(** [relevantDocs.map((d) => d.pageContent)]; reading [pageContent] of
    [undefined] throws. *)
Fixpoint pageContents (ds : list (option Document)) : option (list jsstring) :=
  match ds with
  | [] => Some []
  | None :: _ => None
  | Some d :: ds' =>
      match pageContents ds' with
      | Some cs => Some (pageContent d :: cs)
      | None => None
      end
  end.

(** [cs.join("\n\n")] *)
Fixpoint join (cs : list jsstring) : jsstring :=
  match cs with
  | [] => []
  | [c] => c
  | c :: cs' => c ++ nl ++ nl ++ join cs'
  end.

(** What [askDocsStream] has decided when it calls [streamModelResponse]:
    the queries it made of the index on the way, and the source and prompt,
    or the exception it threw. *)
Record routed : Type :=
  { index_queries : list jsstring;
    outcome : error + jsstring * jsstring }.

(** [askDocsStream] up to its call of [streamModelResponse]; [embed] stands
    for [fetchEmbedding], with [None] where it throws. *)
Definition route (embed : jsstring -> option (list float)) (cfg : Config)
  (question : jsstring) (vectorStore : SimpleVectorStore) : routed :=
  if isLikelyChitchat question
  then {| index_queries := [];
          outcome := inr (src_openai, general_prompt question) |}
  else
    let queried := [question] in
    match getScoresForQuery vectorStore (embed question) with
    | inl e => {| index_queries := queried; outcome := inl e |}
    | inr scores =>
        match decide (topK cfg) scores with
        | General =>
            {| index_queries := queried;
               outcome := inr (src_openai, general_prompt question) |}
        | Docs chosen =>
            match pageContents (List.map doc chosen) with
            | None => {| index_queries := queried; outcome := inl TypeError |}
            | Some cs =>
                {| index_queries := queried;
                   outcome := inr (src_docs, docs_prompt (join cs) question) |}
            end
        end
    end.

(** [askDocsStream(question, vectorStore, res)]: the index queries made, and
    the run of [streamModelResponse] on the chosen source. *)
Definition askDocsStream (embed : jsstring -> option (list float))
  (cfg : Config) (question : jsstring) (vectorStore : SimpleVectorStore)
  (ok : bool) (statusText : jsstring) (ins : list input)
  : list jsstring * (error + machine) :=
  let r := route embed cfg question vectorStore in
  (index_queries r,
   match outcome r with
   | inl e => inl e
   | inr (source, _) => inr (streamModelResponse source ok statusText ins)
   end).

End Ask.

(** ** Invariants of the streaming controller *)
Module StreamSpec.
Import Js Stream.

(** How often the terminal marker was written. *)
Fixpoint dones (w : list sse) : nat :=
  match w with
  | [] => 0
  | Done :: w' => S (dones w')
  | _ :: w' => dones w'
  end.

(** What the primitives leave alone. *)
Definition same_control (s s' : session) : Prop :=
  ended s' = ended s /\ clientClosed s' = clientClosed s
  /\ writableEnded s' = writableEnded s /\ cancels s' = cancels s
  /\ closeListener s' = closeListener s /\ errorListener s' = errorListener s.

(** The two facts about the sent length. *)
Definition buf_ok (s : session) : Prop :=
  lastSentLen s <= List.length (buffer s)
  /\ (startedStreaming s = false -> lastSentLen s = 0).

(** What holds of the session while the handler is reading. *)
Definition reading_ok (source : jsstring) (s : session) : Prop :=
  writableEnded s = false /\ dones (written s) = 0
  /\ (ended s = true -> clientClosed s = true)
  /\ closeListener s = true /\ errorListener s = true
  /\ (Js.eqb source src_openai = false -> startedStreaming s = false ->
      written s = [] /\ statusPingSent s = false).

(** The transcript of a document session that never started streaming. *)
Definition fallback_transcript : list sse :=
  [Comment; Data src_docs fallback_sentence; Done].

(** Does the event reach [onClientClose]? *)
Definition disconnects (e : event) (s : session) : bool :=
  match e with
  | EvClose => closeListener s
  | EvError => errorListener s
  | _ => false
  end.

(** What a callback may change, when it calls [reader.cancel()] [n] times. *)
Definition delivered_ok (source : jsstring) (n : nat) (s s' : session)
  : Prop :=
  closeListener s' = closeListener s /\ errorListener s' = errorListener s
  /\ writableEnded s' = writableEnded s
  /\ cancels s' = cancels s + n
  /\ (clientClosed s = true -> clientClosed s' = true)
  /\ (blocked s = true ->
      blocked s' = true /\ written s' = written s
      /\ startedStreaming s' = startedStreaming s)
  /\ (buf_ok s -> buf_ok s' /\ lastSentLen s <= lastSentLen s')
  /\ (reading_ok source s -> reading_ok source s').

(** What holds of the session once the handler has returned. *)
Definition returned_ok (source : jsstring) (ok : bool) (s : session) : Prop :=
  blocked s = true /\ dones (written s) <= 1
  /\ (ok = true -> clientClosed s = false ->
      exists pre, written s = pre ++ [Done] /\ dones pre = 0)
  /\ (ok = true -> source = src_docs -> startedStreaming s = false ->
      clientClosed s = false -> written s = fallback_transcript).

(** The invariant of the controller. *)
Definition Inv (source : jsstring) (ok : bool) (c : machine) : Prop :=
  buf_ok (st c)
  /\ match at_ c with
     | Reading => reading_ok source (st c)
     | Returned => returned_ok source ok (st c)
     end.

(** The inputs that are a [close] or an [error] event of the response. *)
Definition is_disconnect (i : input) : bool :=
  match i with
  | Callback EvClose | Callback EvError => true
  | _ => false
  end.

Definition count_disconnects (ins : list input) : nat :=
  List.length (List.filter is_disconnect ins).

(** Is input [i] an event that reaches [onClientClose] in machine [c]? *)
Definition fires (i : input) (c : machine) : bool :=
  match i with
  | Callback e => disconnects e (st c)
  | Read _ => false
  end.

End StreamSpec.

(** ** Document ingestion, [loadDocs] *)
Module Ingest.
Import Js Index.

(** [allText.match(/[\s\S]{1,1000}/g) || []]: the greedy pattern takes a
    thousand code units at a time, and what is left at the end. [fuel] bounds
    the number of matches. *)
Definition CHUNK_SIZE : nat := 1000.

Fixpoint match_chunks_fuel (fuel : nat) (allText : jsstring)
  : list jsstring :=
  match fuel with
  | 0 => []
  | S fuel' =>
      match allText with
      | [] => []
      | _ :: _ =>
          firstn CHUNK_SIZE allText
          :: match_chunks_fuel fuel' (skipn CHUNK_SIZE allText)
      end
  end.

Definition match_chunks (allText : jsstring) : list jsstring :=
  match_chunks_fuel (List.length allText) allText.






End Ingest.

(** ** Notions used in the statements about the index *)
Module IndexSpec.
Import Js Index.

(** The two arrays of the store have one entry per chunk. *)
Definition aligned (st : SimpleVectorStore) : Prop :=
  List.length (vectors st) = List.length (documents st).

(** The entries of [getScoresForQuery] before they are sorted. *)
Definition scored_entries (st : SimpleVectorStore) (q : list float)
  : list Scored :=
  map_index
    (fun vec i =>
       {| doc := List.nth_error (documents st) i;
          score := cosineSimilarity vec q |})
    0 (vectors st).

(** Does the entry pass the threshold? *)
Definition passes (threshold : float) (s : Scored) : bool :=
  (threshold <=? score s)%float.

End IndexSpec.

(** ** Notions used in the statements about the transcript *)
Module StreamFormat.
Import Js Stripper Stream.

(** The contents that the general-knowledge loop forwards from the lines of
    one upstream chunk: the non-empty ones before the first end marker. *)
Fixpoint forwarded (ls : list line) : list jsstring :=
  match ls with
  | [] => []
  | LDone :: _ => []
  | LBad :: ls' => forwarded ls'
  | LContent content :: ls' =>
      if nonempty content then content :: forwarded ls' else forwarded ls'
  end.

(** A line whose content, if it has one, the phrase stripper reduces to
    nothing. *)
Definition strips_to_nothing (l : line) : Prop :=
  match l with
  | LContent content => stripLeadingPhrases content = []
  | _ => True
  end.

(** An input that is a chunk of such lines, or the firing of a timer. *)
Definition quiet (i : input) : Prop :=
  match i with
  | Read (RChunk ls) => Forall strips_to_nothing ls
  | Callback EvFlushTick | Callback EvStartTimeout => True
  | _ => False
  end.

(** How often the keep-alive comment was written. *)
Fixpoint comments (w : list sse) : nat :=
  match w with
  | [] => 0
  | Comment :: w' => S (comments w')
  | _ :: w' => comments w'
  end.

(** A content event as a session of [source] may write it: it names the
    source and its content is not empty; in a session that is not of the
    general-knowledge kind the content has no white space at either end. *)
Definition data_ok (source : jsstring) (e : sse) : Prop :=
  match e with
  | Data src content =>
      src = source /\ content <> []
      /\ (Js.eqb source src_openai = false -> trim content = content)
  | _ => True
  end.

(** The keep-alive comment opens the transcript, is its only comment, and
    the headers were set before it. *)
Definition opened (s : session) : Prop :=
  exists rest,
    written s = Comment :: rest /\ comments rest = 0
    /\ statusPingSent s = true /\ headersSent s = true.

Definition fmt (source : jsstring) (s : session) : Prop :=
  Forall (data_ok source) (written s)
  /\ ((written s = [] /\ statusPingSent s = false) \/ opened s).

(** A step that writes nothing and leaves the two flags as they are (the
    headers may get set). *)
Definition keeps (s s' : session) : Prop :=
  written s' = written s /\ statusPingSent s' = statusPingSent s
  /\ (headersSent s = true -> headersSent s' = true).

(** What holds of the transcript while the handler is reading. *)
Definition reading_fmt (source : jsstring) (s : session) : Prop :=
  fmt source s
  /\ (startedStreaming s = true -> opened s)
  /\ (source = src_docs \/ opened s).

End StreamFormat.

(** ** Reading the lines of an upstream chunk *)
Module Lines.
Import Js Stream.

(** [text.split("\n")] *)
Fixpoint split_nl_go (cur : jsstring) (s : jsstring) : list jsstring :=
  match s with
  | [] => [rev cur]
  | c :: s' =>
      if N.eqb c 10 then rev cur :: split_nl_go [] s'
      else split_nl_go (c :: cur) s'
  end.

Definition split_nl (text : jsstring) : list jsstring := split_nl_go [] text.

(** [s.startsWith(prefix)] *)
Fixpoint startsWith (prefix s : jsstring) : bool :=
  match prefix, s with
  | [], _ => true
  | _ :: _, [] => false
  | p :: prefix', c :: s' => (N.eqb p c && startsWith prefix' s')%bool
  end.

(** [s.replace(pattern, empty)] for a string pattern: the first occurrence
    is removed. *)
Fixpoint remove_first (pattern s : jsstring) : jsstring :=
  if startsWith pattern s then skipn (List.length pattern) s
  else match s with
       | [] => []
       | c :: s' => c :: remove_first pattern s'
       end.

(** One line of [streamModelResponse]'s loops, from its text. [parse] stands
    for [JSON.parse(dataStr)] followed by the reading of
    [choices[0].delta.content]: nothing when either throws, the content
    otherwise (empty when there is none). *)
Definition decode_line (parse : jsstring -> option jsstring)
  (line : jsstring) : Stream.line :=
  let dataStr := trim (remove_first (str "data: ") line) in
  if Js.eqb dataStr (str "[DONE]") then LDone
  else match parse dataStr with
       | Some content => LContent content
       | None => LBad
       end.

(** [chunk.split("\n").filter((line) => line.trim().startsWith("data: "))],
    each line decoded. *)
Definition decode_chunk (parse : jsstring -> option jsstring)
  (chunk : jsstring) : list Stream.line :=
  List.map (decode_line parse)
    (List.filter (fun line => startsWith (str "data: ") (trim line))
       (split_nl chunk)).

End Lines.

(** ** The pass-through endpoint of [server.js], [/v1/chat/completions] *)
Module Passthrough.
Import Js Lines.

(** The lines of one upstream chunk that the [data] handler writes, each
    followed by an empty line on the wire. *)
Definition relay (text : jsstring) : list jsstring :=
  List.filter (startsWith (str "data:"))
    (List.filter nonempty (List.map trim (split_nl text))).

(** What the handler gives to [res.write]. *)
Inductive out : Type :=
| Line (line : jsstring)          (* the line and two line feeds *)
| Terminator                      (* [data: [DONE]] and two line feeds *)
| ErrorEvent (message : jsstring). (* [data: {error: {message}}], as JSON *)

(** The characters of a relayed line and of the terminator. *)
Definition wire (o : out) : option jsstring :=
  match o with
  | Line l => Some (l ++ [10; 10]%N)
  | Terminator => Some (str "data: [DONE]" ++ [10; 10]%N)
  | ErrorEvent _ => None
  end.

(** The events of the upstream body. *)
Inductive body_event : Type :=
| BData (text : jsstring)
| BEnd
| BError (message : jsstring).

Record response : Type := { sent : list out; finished : bool }.

(** [res.headersSent]: the headers leave with the first write. *)
Definition headersSent (r : response) : bool :=
  match sent r with [] => false | _ :: _ => true end.

Definition on_event (e : body_event) (r : response) : response :=
  match e with
  | BData text =>
      {| sent := sent r ++ List.map Line (relay text);
         finished := finished r |}
  | BEnd => {| sent := sent r ++ [Terminator]; finished := true |}
  | BError message =>
      if negb (headersSent r)
      then {| sent := sent r ++ [ErrorEvent message]; finished := true |}
      else r
  end.

(** The handler, against an upstream that answers with [ok] (and a body)
    and whose error text is [text], followed by the events of the body. *)
Definition chatCompletions (ok : bool) (text : jsstring)
  (events : list body_event) : response :=
  if negb ok then {| sent := [ErrorEvent text]; finished := true |}
  else List.fold_left (fun r e => on_event e r) events
         {| sent := []; finished := false |}.

End Passthrough.

(** * Properties *)

Import Js Regex Stripper Chitchat Index Retrieval Stream Ask StreamSpec.

(** ** The matcher only consumes from the front *)

Lemma is_suffix_refl (s : jsstring) : is_suffix s s.
Proof. exists []. reflexivity. Qed.

Lemma is_suffix_trans (a b c : jsstring) :
  is_suffix a b -> is_suffix b c -> is_suffix a c.
Proof.
  intros [p Hp] [q Hq]. exists (q ++ p). subst. now rewrite app_assoc.
Qed.

Lemma is_suffix_cons (c : char) (t s : jsstring) :
  is_suffix t s -> is_suffix t (c :: s).
Proof. intros [p Hp]. exists (c :: p). now subst. Qed.

Create HintDb suffix.

#[local] Hint Resolve is_suffix_refl is_suffix_cons : suffix.

Lemma star_consumes (A : Type) (p : char -> bool) (s : jsstring) :
  forall (prev : option char) (k : option char -> jsstring -> option A) x,
    star p prev s k = Some x ->
    exists prev' s', is_suffix s' s /\ k prev' s' = Some x.
Proof.
  induction s as [|c s IH]; intros prev k x H; simpl in H.
  - eauto with suffix.
  - destruct (p c); [|eauto with suffix].
    destruct (star p (Some c) s k) eqn:E.
    + inversion H; subst. apply IH in E as (prev' & s' & Hs & Hk).
      eauto with suffix.
    + eauto with suffix.
Qed.

Lemma exec_consumes (A : Type) (r : regex) :
  forall (prev : option char) (s : jsstring)
         (k : option char -> jsstring -> option A) x,
    exec r prev s k = Some x ->
    exists prev' s', is_suffix s' s /\ k prev' s' = Some x.
Proof.
  induction r as [|p|r1 IH1 r2 IH2|r1 IH1 r2 IH2|p| |];
    intros prev s k x H; simpl in H.
  - eauto with suffix.
  - destruct s as [|c s]; [discriminate|].
    destruct (p c); [eauto with suffix|discriminate].
  - apply IH1 in H as (p1 & s1 & Hs1 & H).
    apply IH2 in H as (p2 & s2 & Hs2 & H).
    exists p2, s2. split; [eapply is_suffix_trans; eassumption|assumption].
  - destruct (exec r1 prev s k) eqn:E.
    + inversion H; subst. eauto.
    + eauto.
  - eapply star_consumes; eassumption.
  - destruct (xorb _ _); [eauto with suffix|discriminate].
  - destruct s; [eauto with suffix|discriminate].
Qed.

Lemma remove_start_suffix (r : regex) (s : jsstring) :
  is_suffix (remove_start r s) s.
Proof.
  unfold remove_start, match_start.
  destruct (exec r None s _) eqn:E; [|apply is_suffix_refl].
  apply exec_consumes in E as (prev' & s' & Hs & Hk).
  now inversion Hk; subst.
Qed.

(** C5: [stripLeadingPhrases] is a total function whose result, on every
    string and so on every truncation of the fallback sentence (in either
    spelling of its apostrophe), is a suffix of its argument: all it removes
    is taken from the front by one of its rules. *)
Theorem stripLeadingPhrases_suffix :
  (forall s : jsstring, is_suffix (stripLeadingPhrases s) s)
  /\ (forall n : nat,
        is_suffix (stripLeadingPhrases (firstn n fallback_sentence))
          (firstn n fallback_sentence))
  /\ (forall n : nat,
        is_suffix
          (stripLeadingPhrases
             (firstn n (str "I don't know based on the provided documents.")))
          (firstn n (str "I don't know based on the provided documents."))).
Proof.
  assert (H : forall s : jsstring, is_suffix (stripLeadingPhrases s) s).
  { intros [|c s]; [apply is_suffix_refl|].
    unfold stripLeadingPhrases.
    repeat (eapply is_suffix_trans; [apply remove_start_suffix|]).
    apply is_suffix_refl. }
  repeat split; intros; apply H.
Qed.

(** ** The phrase stripper is not idempotent *)

Lemma inert_head_cons (c : char) (t : jsstring) :
  inert_head (c :: t) = true ->
  is_space c = false /\ punct c = false
  /\ ci_eq 73 c = false /\ ci_eq 105 c = false /\ ci_eq 100 c = false
  /\ ci_eq 107 c = false /\ ci_eq 110 c = false
  /\ apostrophe c = false.
Proof.
  unfold inert_head. cbn [existsb]. rewrite negb_true_iff.
  rewrite !orb_false_iff. intros (Hp & H1 & H2 & H3 & H4 & H5 & _).
  assert (Hs : is_space c = false).
  { unfold punct in Hp. rewrite !orb_false_iff in Hp. tauto. }
  pose proof Hp as Hp'. unfold punct in Hp'. rewrite !orb_false_iff in Hp'.
  destruct Hp' as (((_ & _) & Hq) & Hr).
  repeat split; try assumption.
  unfold apostrophe. rewrite Hr, orb_false_r.
  unfold in_chars in Hq |- *. cbn in Hq |- *.
  rewrite !orb_false_iff in Hq |- *. tauto.
Qed.

Ltac head_fails :=
  unfold remove_start, match_start;
  cbv -[ci_eq is_space is_word sep punct apostrophe star N.eqb word_opt].

Lemma stripLeadingPhrases_inert (t : jsstring) :
  inert_head t = true -> stripLeadingPhrases t = t.
Proof.
  destruct t as [|c t]; [reflexivity|].
  intros H. apply inert_head_cons in H
    as (Hs & Hp & HI & Hi & Hd & Hk & Hn & Hq).
  unfold stripLeadingPhrases.
  assert (E0 : remove_start re_space (c :: t) = c :: t).
  { head_fails. now rewrite Hs. }
  assert (E1 : remove_start re_negation (c :: t) = c :: t).
  { head_fails. now rewrite HI. }
  assert (E2 : remove_start re_know (c :: t) = c :: t).
  { head_fails. rewrite Hk. destruct (word_opt (@Some N c)); reflexivity. }
  assert (E3 : remove_start re_contraction (c :: t) = c :: t).
  { head_fails. now rewrite Hn, Hq. }
  assert (E4 : remove_start re_leftover (c :: t) = c :: t).
  { head_fails. now rewrite Hd, Hi. }
  assert (E5 : remove_start re_punct (c :: t) = c :: t).
  { head_fails. now rewrite Hp. }
  now rewrite E0, E1, E2, E3, E4, E5.
Qed.

(** C3, as the code has it: a second pass changes nothing when the first pass
    leaves a string on whose first character no rule can start (the empty
    string, or one that begins with neither white space, a quote or
    punctuation of rule 5, nor a letter i, d, k or n). *)
Theorem stripLeadingPhrases_idempotent_inert (s : jsstring) :
  inert_head (stripLeadingPhrases s) = true ->
  stripLeadingPhrases (stripLeadingPhrases s) = stripLeadingPhrases s.
Proof. apply stripLeadingPhrases_inert. Qed.

Lemma stripLeadingPhrases_idempotent_inert_witness :
  inert_head
    (stripLeadingPhrases (str "I don't know based on the provided doc")) = true
  /\ stripLeadingPhrases
       (stripLeadingPhrases (str "I don't know based on the provided doc"))
     = str "based on the provided doc".
Proof.
  split; [vm_compute; reflexivity|].
  rewrite (stripLeadingPhrases_idempotent_inert
             (str "I don't know based on the provided doc"));
    vm_compute; reflexivity.
Defined.

(** C3 fails as stated: on the truncation [I don] of the fallback sentence
    the first pass leaves [don], which the second pass removes. *)
Lemma stripLeadingPhrases_not_idempotent :
  ~ (forall s : jsstring,
       stripLeadingPhrases (stripLeadingPhrases s) = stripLeadingPhrases s).
Proof.
  intros H. specialize (H (str "I don")). vm_compute in H. discriminate H.
Qed.

(** ** Querying the index *)

(** C9, as the code has it: on an index without vectors the query succeeds
    with the empty score list, whatever the embedding of the question, and
    [askDocsStream] then decides for general knowledge. *)
Theorem getScoresForQuery_empty_index (vs : SimpleVectorStore)
  (q : list float) (config_topK : Z) :
  vectors vs = [] ->
  getScoresForQuery vs (Some q) = inr []
  /\ decide config_topK [] = General.
Proof.
  intros H. unfold getScoresForQuery. rewrite H. split; reflexivity.
Qed.

Lemma getScoresForQuery_empty_index_witness :
  getScoresForQuery empty_store (Some [0.5; 0.5]%float) = inr []
  /\ decide 4 [] = General.
Proof.
  apply (getScoresForQuery_empty_index empty_store [0.5; 0.5]%float 4).
  reflexivity.
Defined.

(** C9 fails as stated: the query of an empty index is no error. *)
Lemma getScoresForQuery_empty_index_no_error :
  ~ (forall (vs : SimpleVectorStore) (q : list float),
       vectors vs = [] -> exists e, getScoresForQuery vs (Some q) = inl e).
Proof.
  intros H. destruct (H empty_store [1]%float eq_refl) as [e He].
  discriminate He.
Qed.

(** ** Chitchat bypasses the index *)

(** C10: a question that [isLikelyChitchat] accepts is answered from general
    knowledge, with source [openai], and the index is not queried; the
    question [hi] is such a question. *)
Theorem chitchat_bypasses_index (embed : jsstring -> option (list float))
  (cfg : Config) (question : jsstring) (vectorStore : SimpleVectorStore)
  (ok : bool) (statusText : jsstring) (ins : list input) :
  isLikelyChitchat question = true ->
  route embed cfg question vectorStore
  = {| index_queries := [];
       outcome := inr (src_openai, general_prompt question) |}
  /\ askDocsStream embed cfg question vectorStore ok statusText ins
     = ([], inr (streamModelResponse src_openai ok statusText ins))
  /\ isLikelyChitchat (str "hi") = true.
Proof.
  intros H. unfold askDocsStream, route. rewrite H. cbn [index_queries outcome].
  repeat split.
Qed.

Lemma chitchat_bypasses_index_witness :
  isLikelyChitchat (str "hi") = true
  /\ askDocsStream (fun _ => None) config (str "hi") empty_store true [] [Read RDone]
     = ([], inr (streamModelResponse src_openai true [] [Read RDone])).
Proof.
  split; [vm_compute; reflexivity|].
  apply (chitchat_bypasses_index (fun _ => None) config (str "hi") empty_store
           true [] [Read RDone]).
  vm_compute. reflexivity.
Defined.

(** ** The retrieval policy *)

Lemma SFcompare_swap (a b : SpecFloat.spec_float) :
  SpecFloat.SFcompare b a
  = match SpecFloat.SFcompare a b with
    | Some o => Some (CompOpp o)
    | None => None
    end.
Proof.
  destruct a as [sa|sa| |sa ma ea], b as [sb|sb| |sb mb eb]; cbn;
    try reflexivity;
    try (destruct sa; reflexivity); try (destruct sb; reflexivity);
    try (destruct sa, sb; reflexivity).
  destruct sa, sb; try reflexivity;
    rewrite (Z.compare_antisym ea eb);
    destruct (Z.compare ea eb) eqn:E; cbn; try reflexivity;
    rewrite (Pos.compare_cont_antisym ma mb Eq); cbn;
    try rewrite CompOpp_involutive; reflexivity.
Qed.

Lemma leb_not_ltb (c x : float) :
  (c <=? x)%float = true -> (x <? c)%float = false.
Proof.
  rewrite leb_spec, ltb_spec. unfold SpecFloat.SFleb, SpecFloat.SFltb.
  rewrite (SFcompare_swap (Prim2SF c) (Prim2SF x)).
  destruct (SpecFloat.SFcompare (Prim2SF c) (Prim2SF x)) as [[| |]|];
    cbn; congruence.
Qed.

Lemma quarter_le_truthy (x : float) :
  (0.25 <=? x)%float = true -> or_zero x = x.
Proof.
  unfold or_zero. rewrite leb_spec, !eqb_spec.
  change (Prim2SF 0.25) with (SpecFloat.S754_finite false 4503599627370496 (-54)).
  change (Prim2SF 0) with (SpecFloat.S754_zero false).
  unfold SpecFloat.SFleb, SpecFloat.SFeqb.
  destruct (Prim2SF x) as [s|s| |s m e] eqn:E; cbn; try discriminate.
  - destruct s; [discriminate|]. reflexivity.
  - destruct s; [discriminate|]. intros _.
    assert (H : Pos.compare_cont Eq m m = Eq) by apply Pos.compare_refl.
    rewrite Z.compare_refl, H. reflexivity.
Qed.

Lemma slice0_length_le (A : Type) (k : Z) (l : list A) :
  (0 <= k)%Z -> (Z.of_nat (List.length (slice0 k l)) <= k)%Z.
Proof.
  intros Hk. unfold slice0.
  destruct (Z.ltb_spec k 0); [lia|].
  rewrite length_firstn. lia.
Qed.

Lemma slice0_nonempty (A : Type) (k : Z) (l : list A) :
  (1 <= k)%Z -> l <> [] -> 1 <= List.length (slice0 k l).
Proof.
  intros Hk Hl. unfold slice0.
  destruct (Z.ltb_spec k 0); [lia|].
  rewrite length_firstn.
  destruct l; [congruence|]. cbn [List.length]. lia.
Qed.

Lemma choose_length_le (topK : Z) (threshold : float) (scores : list Scored) :
  (0 <= topK)%Z ->
  (Z.of_nat (List.length (choose topK threshold scores)) <= topK)%Z.
Proof.
  intros Hk. unfold choose.
  destruct (Nat.ltb 0 _); now apply slice0_length_le.
Qed.

Lemma choose_nonempty (topK : Z) (threshold : float) (scores : list Scored) :
  (1 <= topK)%Z -> scores <> [] ->
  1 <= List.length (choose topK threshold scores).
Proof.
  intros Hk Hs. unfold choose.
  destruct (Nat.ltb_spec 0
              (List.length
                 (slice0 topK
                    (List.filter (fun s => (threshold <=? score s)%float)
                       scores)))).
  - lia.
  - now apply slice0_nonempty.
Qed.

Lemma effective_topK_pos (config_topK : Z) :
  (0 <= config_topK)%Z -> (1 <= effective_topK config_topK)%Z.
Proof.
  unfold effective_topK. destruct (Z.eqb_spec config_topK 0); lia.
Qed.

(** C8: with a fan-out [topK] of at least one, [getRelevantDocuments] returns
    at most [topK] chunks, and at least one on a non-empty score list; with a
    non-negative [config.topK], the docs branch of [askDocsStream] chooses at
    most [config.topK || 5] chunks, and whenever the list is non-empty and
    its top score is at least 0.25 it takes that branch and chooses at least
    one. *)
Theorem retrieval_policy_bounds (topK config_topK : Z) (minScore : float)
  (scores : list Scored) :
  (1 <= topK)%Z -> (0 <= config_topK)%Z ->
  (Z.of_nat (List.length (getRelevantDocuments topK minScore scores)) <= topK)%Z
  /\ (scores <> [] ->
      1 <= List.length (getRelevantDocuments topK minScore scores))
  /\ (forall chosen, decide config_topK scores = Docs chosen ->
        (Z.of_nat (List.length chosen) <= effective_topK config_topK)%Z)
  /\ (forall s rest, scores = s :: rest ->
        (MIN_SCORE_FOR_DOCS <=? score s)%float = true ->
        exists chosen,
          decide config_topK scores = Docs chosen
          /\ 1 <= List.length chosen
          /\ (Z.of_nat (List.length chosen) <= effective_topK config_topK)%Z).
Proof.
  intros Hk Hc. pose proof (effective_topK_pos Hc) as He.
  unfold getRelevantDocuments. rewrite length_map.
  split; [apply choose_length_le; lia|].
  split; [intros Hs; now apply choose_nonempty|].
  split.
  - intros chosen. unfold decide.
    destruct (_ <? _)%float; [discriminate|].
    intros H. inversion H; subst. apply choose_length_le. lia.
  - intros s rest -> Hs. unfold decide. cbn [topScoreOf].
    rewrite (quarter_le_truthy Hs), (leb_not_ltb Hs).
    eexists. split; [reflexivity|].
    split; [apply choose_nonempty; [lia|discriminate]|].
    apply choose_length_le. lia.
Qed.

Lemma retrieval_policy_bounds_witness :
  let scores :=
    [ {| doc := Some {| pageContent := str "a" |}; score := 0.3%float |};
      {| doc := Some {| pageContent := str "b" |}; score := 0.1%float |} ] in
  (Z.of_nat
     (List.length (getRelevantDocuments default_topK default_minScore scores))
   <= default_topK)%Z
  /\ 1 <= List.length
            (getRelevantDocuments default_topK default_minScore scores)
  /\ exists chosen, decide 4 scores = Docs chosen /\ 1 <= List.length chosen.
Proof.
  intros scores.
  assert (H5 : (1 <= default_topK)%Z) by (unfold default_topK; lia).
  assert (H4 : (0 <= 4)%Z) by lia.
  destruct (retrieval_policy_bounds default_minScore scores H5 H4)
    as (Hle & Hge & _ & Hdocs).
  split; [exact Hle|]. split; [apply Hge; discriminate|].
  destruct (Hdocs _ _ eq_refl eq_refl) as (chosen & Hd & Hn & _).
  exists chosen. split; assumption.
Defined.

(** ** The streaming controller *)

Ltac proj :=
  cbn [buffer lastSentLen startedStreaming flushTimer startTimer headersSent
       ended statusPingSent clientClosed writableEnded written closeListener
       errorListener cancels
       set_buffer set_lastSentLen set_startedStreaming set_flushTimer
       set_startTimer set_headersSent set_ended set_statusPingSent
       set_clientClosed set_writableEnded set_written set_closeListener
       set_cancels listen at_ st] in *.

Lemma dones_app (a b : list sse) : dones (a ++ b) = dones a + dones b.
Proof.
  induction a as [|[] a IH]; cbn; rewrite ?IH; reflexivity.
Qed.

Lemma blocked_closed (s : session) :
  clientClosed s = true -> blocked s = true.
Proof. unfold blocked. intros ->. now rewrite !orb_true_r. Qed.

Lemma same_control_blocked (s s' : session) :
  same_control s s' -> blocked s' = blocked s.
Proof. unfold same_control, blocked. intros (-> & -> & -> & _). reflexivity. Qed.

Ltac splits := repeat match goal with |- _ /\ _ => split end.

Ltac bools :=
  repeat match goal with b : bool |- _ => destruct b end;
  cbn [orb andb negb] in *.

Ltac brute :=
  intros;
  repeat match goal with s : session |- _ => destruct s end;
  proj; bools; cbn in *.

Lemma sendChunk_control (source chunk : jsstring) (s : session) :
  same_control s (sendChunk source chunk s).
Proof.
  unfold sendChunk, sendPing, safeWrite, ensureHeaders, blocked, same_control.
  destruct (nonempty chunk); brute; repeat split.
Qed.

Lemma sendChunk_buffer (source chunk : jsstring) (s : session) :
  buffer (sendChunk source chunk s) = buffer s
  /\ lastSentLen (sendChunk source chunk s) = lastSentLen s
  /\ startedStreaming (sendChunk source chunk s) = startedStreaming s.
Proof.
  unfold sendChunk, sendPing, safeWrite, ensureHeaders, blocked.
  destruct (nonempty chunk); brute; repeat split.
Qed.

Lemma sendChunk_written (source chunk : jsstring) (s : session) :
  written (sendChunk source chunk s)
  = if (negb (nonempty chunk) || blocked s)%bool then written s
    else written s ++ (if statusPingSent s then [] else [Comment])
           ++ [Data source chunk].
Proof.
  unfold sendChunk, sendPing, safeWrite, ensureHeaders, blocked.
  destruct (nonempty chunk); brute;
    rewrite <- ?app_assoc; reflexivity.
Qed.

Lemma sendChunk_dones (source chunk : jsstring) (s : session) :
  exists w, written (sendChunk source chunk s) = written s ++ w
            /\ dones w = 0.
Proof.
  rewrite sendChunk_written.
  destruct (negb (nonempty chunk) || blocked s)%bool.
  - exists []. now rewrite app_nil_r.
  - eexists. split; [reflexivity|]. now destruct (statusPingSent s).
Qed.

Lemma startPeriodicFlush_same (s : session) :
  same_control s (startPeriodicFlush s)
  /\ buffer (startPeriodicFlush s) = buffer s
  /\ lastSentLen (startPeriodicFlush s) = lastSentLen s
  /\ startedStreaming (startPeriodicFlush s) = startedStreaming s
  /\ written (startPeriodicFlush s) = written s
  /\ statusPingSent (startPeriodicFlush s) = statusPingSent s.
Proof. unfold startPeriodicFlush, same_control. brute; repeat split. Qed.

Lemma clearTimers_same (s : session) :
  same_control s (clearTimers s)
  /\ buffer (clearTimers s) = buffer s
  /\ lastSentLen (clearTimers s) = lastSentLen s
  /\ startedStreaming (clearTimers s) = startedStreaming s
  /\ written (clearTimers s) = written s
  /\ statusPingSent (clearTimers s) = statusPingSent s.
Proof.
  unfold clearTimers, same_control. destruct s. proj.
  destruct flushTimer0, startTimer0; proj; repeat split.
Qed.

Lemma beginStreaming_spec (source stripped : jsstring) (s : session) :
  let s' := beginStreaming source stripped s in
  same_control s s'
  /\ buffer s' = stripped
  /\ startedStreaming s' = true
  /\ (lastSentLen s' = lastSentLen s
      \/ lastSentLen s' = List.length stripped)
  /\ exists w, written s' = written s ++ w /\ dones w = 0.
Proof.
  unfold beginStreaming. cbv zeta.
  match goal with |- context [startPeriodicFlush ?x] =>
    destruct (startPeriodicFlush_same x) as (Hc & Hb & Hl & Hs & Hw & _);
    set (y := x) in *
  end.
  rewrite Hb, Hl, Hs, Hw. subst y. proj.
  set (s0 := set_buffer stripped (set_startedStreaming true s)) in *.
  set (toSend := trim (slice_from (lastSentLen s) stripped)) in *.
  destruct (sendChunk_buffer source toSend s0) as (Eb & El & Es).
  pose proof (sendChunk_control source toSend s0) as Ec.
  destruct (sendChunk_dones source toSend s0) as (w & Ew & Ed).
  destruct (nonempty toSend); proj.
  - rewrite Eb, Es. subst s0. proj.
    splits; auto;
      try (unfold same_control in *; proj; intuition congruence).
    exists w. now rewrite Ew.
  - subst s0. proj.
    splits; auto;
      try (unfold same_control in *; proj; intuition congruence).
    exists []. now rewrite app_nil_r.
Qed.

Lemma forwardIncrement_spec (source : jsstring) (s : session) :
  let s' := forwardIncrement source s in
  let chunk :=
    trim (stripLeadingPhrases (slice_from (lastSentLen s) (buffer s))) in
  same_control s s'
  /\ buffer s' = buffer s
  /\ startedStreaming s' = startedStreaming s
  /\ lastSentLen s' = List.length (buffer s)
  /\ written s' = written (sendChunk source chunk s).
Proof.
  unfold forwardIncrement. cbv zeta.
  set (chunk := trim (stripLeadingPhrases _)).
  destruct (sendChunk_buffer source chunk s) as (Eb & El & Es).
  pose proof (sendChunk_control source chunk s) as Ec.
  pose proof (sendChunk_written source chunk s) as Ew.
  destruct (nonempty chunk); proj.
  - rewrite Eb, Es. splits; auto.
  - cbn [negb orb] in Ew. rewrite Ew. splits; auto.
    unfold same_control. proj. splits; reflexivity.
Qed.

Lemma flushIfNeeded_blocked (source : jsstring) (force : bool) (s : session) :
  blocked s = true -> flushIfNeeded source force s = s.
Proof. unfold flushIfNeeded. now intros ->. Qed.

Lemma same_control_refl (s : session) : same_control s s.
Proof. repeat split. Qed.

Ltac flush_id :=
  splits; auto using same_control_refl; try tauto;
  try (exists []; now rewrite app_nil_r).

(** What a flush may change. *)
Lemma flushIfNeeded_spec (source : jsstring) (force : bool) (s : session) :
  let s' := flushIfNeeded source force s in
  same_control s s'
  /\ (startedStreaming s' = false -> s' = s)
  /\ (startedStreaming s = true ->
      startedStreaming s' = true /\ buffer s' = buffer s)
  /\ (buf_ok s -> buf_ok s' /\ lastSentLen s <= lastSentLen s')
  /\ exists w, written s' = written s ++ w /\ dones w = 0.
Proof.
  unfold flushIfNeeded. cbv zeta.
  destruct (blocked s); [flush_id|].
  destruct (startedStreaming s) eqn:Es; cbn [negb].
  - destruct (_ || _)%bool; [|rewrite ?Es; flush_id].
    destruct (forwardIncrement_spec source s) as (Hc & Hb & Hs & Hl & Hw).
    destruct (sendChunk_dones source
      (trim (stripLeadingPhrases (slice_from (lastSentLen s) (buffer s)))) s)
      as (w & Ew & Ed).
    rewrite Hb, Hs, Hl, Hw, Es. splits; auto; try discriminate.
    + unfold buf_ok in *. intros [H0 H1]. rewrite Hb, Hs, Hl, Es.
      splits; auto; try discriminate; lia.
    + exists w. now rewrite Ew.
  - destruct (_ || _)%bool; [|rewrite ?Es; flush_id].
    destruct (beginStreaming_spec source (stripLeadingPhrases (buffer s)) s)
      as (Hc & Hb & Hs & Hl & Hw).
    rewrite Hs. splits; auto; try discriminate.
    unfold buf_ok. intros [H0 H1]. rewrite Hb, Hs.
    specialize (H1 Es).
    splits; try discriminate; destruct Hl as [Hl|Hl]; rewrite Hl; lia.
Qed.

Lemma ensureHeaders_same (s : session) :
  same_control s (ensureHeaders s)
  /\ buffer (ensureHeaders s) = buffer s
  /\ lastSentLen (ensureHeaders s) = lastSentLen s
  /\ startedStreaming (ensureHeaders s) = startedStreaming s
  /\ written (ensureHeaders s) = written s
  /\ statusPingSent (ensureHeaders s) = statusPingSent s.
Proof. unfold ensureHeaders, same_control. brute; splits; reflexivity. Qed.

Lemma terminate_spec (s : session) :
  let s' := terminate s in
  ended s' = true /\ closeListener s' = false
  /\ clientClosed s' = clientClosed s /\ cancels s' = cancels s
  /\ errorListener s' = errorListener s
  /\ buffer s' = buffer s /\ lastSentLen s' = lastSentLen s
  /\ startedStreaming s' = startedStreaming s
  /\ written s' = (if blocked s then written s else written s ++ [Done]).
Proof. unfold terminate, safeWrite, blocked. brute; splits; reflexivity. Qed.

Lemma flushIfNeeded_reading (source : jsstring) (force : bool) (s : session) :
  reading_ok source s -> reading_ok source (flushIfNeeded source force s).
Proof.
  destruct (flushIfNeeded_spec source force s)
    as (Hc & Hu & _ & _ & (w & Hw & Hd)).
  unfold reading_ok, same_control in *.
  destruct Hc as (-> & -> & -> & _ & -> & ->).
  intros (H1 & H2 & H3 & H4 & H5 & H6).
  splits; auto.
  - rewrite Hw, dones_app. lia.
  - intros Ho Hs. pose proof (Hu Hs) as E. rewrite E in Hs |- *.
    apply H6; assumption.
Qed.

Lemma docs_lines_spec (source : jsstring) (ls : list line) :
  forall s : session,
    let s' := docs_lines source ls s in
    same_control s s'
    /\ (clientClosed s = true -> s' = s)
    /\ (reading_ok source s -> reading_ok source s')
    /\ (buf_ok s -> buf_ok s' /\ lastSentLen s <= lastSentLen s').
Proof.
  induction ls as [|l ls IH]; intros s; cbn [docs_lines]; cbv zeta.
  - splits; auto using same_control_refl.
  - destruct (clientClosed s) eqn:Ec;
      [splits; auto using same_control_refl; discriminate|].
    destruct l as [|content|];
      try (splits; auto using same_control_refl; discriminate).
    + destruct (nonempty content).
      * set (s1 := if negb (startedStreaming (set_buffer (buffer s ++ content) s))
                   then set_buffer
                          (stripLeadingPhrases
                             (buffer (set_buffer (buffer s ++ content) s)))
                          (set_buffer (buffer s ++ content) s)
                   else set_buffer (buffer s ++ content) s).
        assert (H1 : same_control s s1
                     /\ written s1 = written s
                     /\ statusPingSent s1 = statusPingSent s
                     /\ startedStreaming s1 = startedStreaming s
                     /\ lastSentLen s1 = lastSentLen s
                     /\ (startedStreaming s = true ->
                         buffer s1 = buffer s ++ content)).
        { subst s1. proj. destruct (startedStreaming s) eqn:Es; cbn [negb]; proj;
            splits; intros; try discriminate; try reflexivity;
            try assumption; unfold same_control; proj; splits; reflexivity. }
        destruct H1 as (C1 & W1 & P1 & S1 & L1 & B1).
        destruct (flushIfNeeded_spec source false s1)
          as (C2 & _ & _ & B2 & _).
        pose proof (@flushIfNeeded_reading source false s1) as R2.
        destruct (IH (flushIfNeeded source false s1)) as (C3 & _ & R3 & B3).
        splits.
        -- unfold same_control in *. intuition congruence.
        -- discriminate.
        -- intros R. apply R3, R2.
           unfold reading_ok, same_control in *.
           rewrite W1, P1, S1.
           destruct C1 as (-> & -> & -> & _ & -> & ->). exact R.
        -- intros [Hb0 Hb1].
           assert (Hb : buf_ok s1).
           { unfold buf_ok. rewrite S1, L1. split; [|exact Hb1].
             destruct (startedStreaming s) eqn:Es.
             - rewrite (B1 eq_refl), length_app. lia.
             - rewrite (Hb1 eq_refl). lia. }
           destruct (B2 Hb) as (Hb2 & Hl2). destruct (B3 Hb2) as (Hb3 & Hl3).
           split; [exact Hb3|]. rewrite <- L1. lia.
      * destruct (IH s) as (C3 & _ & R3 & B3).
        splits; auto. discriminate.
    + destruct (IH s) as (C3 & _ & R3 & B3).
      splits; auto. discriminate.
Qed.

Lemma safeWrite_spec (d : sse) (s : session) :
  let s' := safeWrite d s in
  same_control s s'
  /\ buffer s' = buffer s /\ lastSentLen s' = lastSentLen s
  /\ startedStreaming s' = startedStreaming s
  /\ statusPingSent s' = statusPingSent s
  /\ written s' = (if blocked s then written s else written s ++ [d]).
Proof.
  unfold safeWrite, same_control. destruct (blocked s); proj;
    splits; reflexivity.
Qed.

Lemma openai_lines_spec (source : jsstring) (ls : list line) :
  forall s : session,
    let s' := openai_lines source ls s in
    same_control s s'
    /\ (clientClosed s = true -> s' = s)
    /\ buffer s' = buffer s /\ lastSentLen s' = lastSentLen s
    /\ startedStreaming s' = startedStreaming s
    /\ exists w, written s' = written s ++ w /\ dones w = 0.
Proof.
  induction ls as [|l ls IH]; intros s; cbn [openai_lines]; cbv zeta.
  - splits; auto using same_control_refl.
    exists []. now rewrite app_nil_r.
  - destruct (clientClosed s) eqn:Ec.
    { splits; auto using same_control_refl.
      exists []. now rewrite app_nil_r. }
    destruct l as [|content|].
    + splits; auto using same_control_refl; try discriminate.
      exists []. now rewrite app_nil_r.
    + destruct (_ && _)%bool.
      * destruct (safeWrite_spec (Data source content) s)
          as (C1 & B1 & L1 & S1 & _ & W1).
        destruct (IH (safeWrite (Data source content) s))
          as (C2 & _ & B2 & L2 & S2 & (w & W2 & D2)).
        splits; try congruence; try discriminate.
        -- unfold same_control in *. intuition congruence.
        -- rewrite W2, W1. destruct (blocked s).
           ++ now exists w.
           ++ exists (Data source content :: w).
              now rewrite <- app_assoc.
      * destruct (IH s) as (C2 & _ & B2 & L2 & S2 & W2).
        splits; auto; discriminate.
    + destruct (IH s) as (C2 & _ & B2 & L2 & S2 & W2).
      splits; auto; discriminate.
Qed.

Lemma reading_ok_same (source : jsstring) (s s' : session) :
  same_control s s' -> written s' = written s ->
  statusPingSent s' = statusPingSent s ->
  startedStreaming s' = startedStreaming s ->
  reading_ok source s -> reading_ok source s'.
Proof.
  unfold reading_ok, same_control.
  intros (-> & -> & -> & _ & -> & ->) -> -> ->. exact (fun H => H).
Qed.

Lemma finally_outer_spec (source : jsstring) (s : session) :
  let s' := finally_outer source s in
  ended s' = true
  /\ clientClosed s' = clientClosed s /\ cancels s' = cancels s
  /\ errorListener s' = errorListener s
  /\ (buf_ok s -> buf_ok s' /\ lastSentLen s <= lastSentLen s')
  /\ (blocked s = true -> written s' = written s)
  /\ (reading_ok source s ->
      dones (written s') <= 1
      /\ (clientClosed s = false ->
          exists pre, written s' = pre ++ [Done] /\ dones pre = 0)
      /\ (source = src_docs -> startedStreaming s' = false ->
          clientClosed s = false -> written s' = fallback_transcript)).
Proof.
  unfold finally_outer. cbv zeta.
  set (s1 := clearTimers s).
  set (s2 := flushIfNeeded source true s1).
  set (cond := (negb (startedStreaming s2) && Js.eqb source src_docs
                && negb (clientClosed s2))%bool).
  set (s3 := if cond then sendChunk source fallback_sentence (ensureHeaders s2)
             else s2).
  destruct (clearTimers_same s) as (C1 & B1 & L1 & S1 & W1 & P1).
  fold s1 in C1, B1, L1, S1, W1, P1.
  destruct (flushIfNeeded_spec source true s1) as (C2 & U2 & _ & B2 & W2).
  fold s2 in C2, U2, B2, W2.
  destruct (ensureHeaders_same s2) as (Ce & Be & Le & Se & We & Pe).
  pose proof (sendChunk_control source fallback_sentence (ensureHeaders s2))
    as Cs.
  destruct (sendChunk_buffer source fallback_sentence (ensureHeaders s2))
    as (Bs & Ls & Ss).
  pose proof (sendChunk_written source fallback_sentence (ensureHeaders s2))
    as Ws.
  rewrite (same_control_blocked Ce), We, Pe in Ws.
  change (nonempty fallback_sentence) with true in Ws. cbn [negb orb] in Ws.
  assert (C3 : same_control s2 s3).
  { subst s3. destruct cond; [|apply same_control_refl].
    unfold same_control in *. intuition congruence. }
  assert (B3 : buffer s3 = buffer s2 /\ lastSentLen s3 = lastSentLen s2
               /\ startedStreaming s3 = startedStreaming s2).
  { subst s3. destruct cond; [|auto]. splits; congruence. }
  destruct B3 as (B3 & L3 & S3).
  assert (C03 : same_control s s3).
  { unfold same_control in *. intuition congruence. }
  pose proof (same_control_blocked C03) as K3.
  destruct (terminate_spec s3) as (T1 & _ & T3 & T4 & T5 & T6 & T7 & T8 & T9).
  unfold buf_ok at 2.
  rewrite ?T1, ?T3, ?T4, ?T5, ?T6, ?T7, ?T8, ?T9, ?K3.
  unfold same_control in C03.
  destruct C03 as (E03 & X03 & N03 & A03 & _ & R03).
  splits; auto.
  - intros Hb. assert (Hb1 : buf_ok s1).
    { unfold buf_ok in *. now rewrite B1, L1, S1. }
    destruct (B2 Hb1) as ((Hx & Hy) & Hz).
    rewrite B3, L3, S3, <- L1. auto.
  - intros Hk. rewrite Hk.
    assert (E2 : s2 = s1).
    { subst s2. apply flushIfNeeded_blocked.
      now rewrite (same_control_blocked C1). }
    subst s3. destruct cond; [|now rewrite E2].
    rewrite Ws, (same_control_blocked C2), (same_control_blocked C1), Hk.
    now rewrite E2.
  - intros R.
    assert (R1 : reading_ok source s1) by (eapply reading_ok_same; eauto).
    assert (R2 : reading_ok source s2) by now apply flushIfNeeded_reading.
    destruct R2 as (Rw & Rd & Re & _ & _ & Rdocs).
    assert (D3 : exists w, written s3 = written s2 ++ w /\ dones w = 0).
    { subst s3. destruct cond.
      - rewrite Ws. destruct (blocked s2).
        + exists []. now rewrite app_nil_r.
        + eexists. split; [reflexivity|]. now destruct (statusPingSent s2).
      - exists []. now rewrite app_nil_r. }
    destruct D3 as (w3 & W3 & D3).
    assert (Hopen : clientClosed s = false -> blocked s = false).
    { intros Hc. unfold blocked.
      destruct C1 as (E1 & X1 & N1 & _), C2 as (E2 & X2 & N2 & _).
      rewrite Hc, <- N1, <- N2, Rw, <- E1, <- E2.
      destruct (ended s2) eqn:Ee; [|reflexivity].
      specialize (Re eq_refl). congruence. }
    splits.
    + destruct (blocked s); rewrite ?dones_app, W3, dones_app, Rd, D3;
        cbn; lia.
    + intros Hc. rewrite (Hopen Hc). exists (written s3). split; [reflexivity|].
      rewrite W3, dones_app. lia.
    + intros -> Hs Hc. rewrite (Hopen Hc).
      rewrite S3 in Hs.
      destruct (Rdocs eq_refl Hs) as (Hw0 & Hp0).
      assert (Hcond : cond = true).
      { subst cond. rewrite Hs.
        destruct C1 as (_ & X1 & _), C2 as (_ & X2 & _).
        now rewrite X2, X1, Hc. }
      subst s3. rewrite Hcond, Ws.
      assert (Hk2 : blocked s2 = false).
      { rewrite (same_control_blocked C2), (same_control_blocked C1).
        auto. }
      rewrite Hk2, Hw0, Hp0. reflexivity.
Qed.

Lemma reading_open (source : jsstring) (s : session) :
  reading_ok source s -> clientClosed s = false -> blocked s = false.
Proof.
  intros (Hw & _ & He & _) Hc. unfold blocked. rewrite Hw, Hc.
  destruct (ended s); [|reflexivity]. now rewrite He in Hc.
Qed.

Lemma finish_spec (source : jsstring) (s : session) :
  let s' := finish source s in
  ended s' = true
  /\ clientClosed s' = clientClosed s /\ cancels s' = cancels s
  /\ errorListener s' = errorListener s
  /\ (buf_ok s -> buf_ok s' /\ lastSentLen s <= lastSentLen s')
  /\ (blocked s = true -> written s' = written s)
  /\ (reading_ok source s ->
      dones (written s') <= 1
      /\ (clientClosed s = false ->
          exists pre, written s' = pre ++ [Done] /\ dones pre = 0)
      /\ (source = src_docs -> startedStreaming s' = false ->
          clientClosed s = false -> written s' = fallback_transcript)).
Proof.
  unfold finish. destruct (Js.eqb source src_openai) eqn:Eo;
    [|apply finally_outer_spec].
  unfold finally_openai. set (t := terminate (clearTimers s)).
  destruct (clearTimers_same s) as (C1 & B1 & L1 & S1 & W1 & P1).
  destruct (terminate_spec (clearTimers s))
    as (T1 & _ & T3 & T4 & T5 & T6 & T7 & T8 & T9).
  fold t in T1, T3, T4, T5, T6, T7, T8, T9.
  rewrite (same_control_blocked C1), W1 in T9.
  assert (Kt : blocked t = true) by (unfold blocked; now rewrite T1).
  destruct (finally_outer_spec source t) as (F1 & F2 & F3 & F4 & F5 & F6 & _).
  specialize (F6 Kt). rewrite F1, F2, F3, F4, F6.
  unfold same_control in C1. destruct C1 as (E1 & X1 & N1 & A1 & _ & R1).
  splits; try congruence.
  - intros Hb. assert (Hbt : buf_ok t).
    { unfold buf_ok in *. now rewrite T6, T7, T8, B1, L1, S1. }
    destruct (F5 Hbt). split; [assumption|]. rewrite <- L1, <- T7. assumption.
  - intros Hk. now rewrite T9, Hk.
  - intros R. pose proof R as (_ & Rd & _). rewrite T9. splits.
    + destruct (blocked s); rewrite ?dones_app, Rd; cbn; lia.
    + intros Hc. rewrite (reading_open R Hc). now exists (written s).
    + intros ->. discriminate Eo.
Qed.

Lemma delivered_id (source : jsstring) (s : session) :
  delivered_ok source 0 s s.
Proof. unfold delivered_ok. splits; auto. Qed.

Lemma delivered_close (source : jsstring) (s : session) :
  delivered_ok source 1 s (onClientClose s).
Proof.
  unfold delivered_ok, buf_ok, reading_ok, blocked, onClientClose. proj.
  splits; auto; try lia; tauto.
Qed.

Lemma delivered_flush (source : jsstring) (s : session) :
  delivered_ok source 0 s (flushIfNeeded source true s).
Proof.
  destruct (flushIfNeeded_spec source true s) as (C & _ & _ & B & _).
  pose proof (@flushIfNeeded_reading source true s) as R.
  pose proof (@flushIfNeeded_blocked source true s) as K.
  unfold same_control in C. destruct C as (C1 & C2 & C3 & C4 & C5 & C6).
  unfold delivered_ok.
  splits; auto; try congruence; try lia; intros Hk; now rewrite (K Hk).
Qed.

Lemma deliver_spec (source : jsstring) (e : event) (s : session) :
  delivered_ok source (if disconnects e s then 1 else 0) s
    (deliver source e s).
Proof.
  destruct e; cbn [deliver disconnects].
  - destruct (closeListener s);
      [apply delivered_close|apply delivered_id].
  - destruct (errorListener s);
      [apply delivered_close|apply delivered_id].
  - destruct (flushTimer s); [apply delivered_flush|apply delivered_id].
  - destruct (startTimer s) eqn:Et; try apply delivered_id.
    cbv zeta.
    set (s0 := set_startTimer Fired s).
    assert (H0 : delivered_ok source 0 s s0).
    { subst s0. unfold delivered_ok, blocked, buf_ok, reading_ok. proj.
      splits; auto. }
    assert (H1 : lastSentLen s0 = lastSentLen s /\ blocked s0 = blocked s
                 /\ written s0 = written s
                 /\ startedStreaming s0 = startedStreaming s).
    { subst s0. unfold blocked. proj. splits; reflexivity. }
    destruct H1 as (L0 & K0 & W0 & S0).
    destruct (_ && _)%bool; [|exact H0].
    pose proof (delivered_flush source s0) as H1.
    unfold delivered_ok in *.
    destruct H0 as (A1 & A2 & A3 & A4 & A5 & A6 & A7 & A8).
    destruct H1 as (F1 & F2 & F3 & F4 & F5 & F6 & F7 & F8).
    splits; try congruence; try lia; auto.
Qed.

Lemma finish_inv (source : jsstring) (ok : bool) (s : session) :
  buf_ok s -> reading_ok source s ->
  Inv source ok {| at_ := Returned; st := finish source s |}
  /\ lastSentLen s <= lastSentLen (finish source s).
Proof.
  intros Hb R.
  destruct (finish_spec source s) as (F1 & F2 & F3 & F4 & F5 & F6 & F7).
  destruct (F5 Hb) as (Hb' & Hl). destruct (F7 R) as (G1 & G2 & G3).
  split; [|exact Hl]. split; [exact Hb'|]. proj.
  unfold returned_ok. rewrite F2. splits; auto.
  unfold blocked. now rewrite F1.
Qed.

Lemma loop_test_inv (source : jsstring) (ok : bool) (s : session) :
  buf_ok s -> reading_ok source s ->
  Inv source ok (loop_test source s)
  /\ lastSentLen s <= lastSentLen (st (loop_test source s)).
Proof.
  intros Hb R. unfold loop_test. destruct (clientClosed s).
  - now apply finish_inv.
  - split; [split; assumption|proj; lia].
Qed.

Lemma start_inv (source : jsstring) (ok : bool) (statusText : jsstring) :
  Inv source ok (start source ok statusText).
Proof.
  unfold start. destruct ok; cbn [negb].
  - destruct (Js.eqb source src_openai) eqn:Eo.
    + apply loop_test_inv.
      * split; [cbn; lia|reflexivity].
      * unfold reading_ok. splits; try reflexivity; intros; try congruence.
        discriminate.
    + apply loop_test_inv.
      * split; [cbn; lia|reflexivity].
      * unfold reading_ok. splits; try reflexivity; intros; try congruence.
        -- discriminate.
        -- split; reflexivity.
  - split; [split; [cbn; lia|reflexivity]|].
    unfold returned_ok. cbn. splits; auto; discriminate.
Qed.

Lemma step_inv (source : jsstring) (ok : bool) (i : input) (c : machine) :
  Inv source ok c ->
  Inv source ok (step source i c)
  /\ lastSentLen (st c) <= lastSentLen (st (step source i c)).
Proof.
  destruct c as [ph s]. unfold Inv. proj. intros (Hb & H).
  destruct i as [e|r]; unfold step; proj.
  - destruct (deliver_spec source e s)
      as (_ & _ & _ & _ & Hc & Hk & Hbuf & Hr).
    destruct (Hbuf Hb) as (Hb' & Hl).
    assert (G : match ph with
                | Reading => reading_ok source (deliver source e s)
                | Returned => returned_ok source ok (deliver source e s)
                end).
    { destruct ph; [auto|].
      destruct H as (K & D & P & Q). destruct (Hk K) as (K' & W' & S').
      unfold returned_ok. rewrite W', S'. splits; auto.
      - intros Ho Hx. apply P; [assumption|].
        destruct (clientClosed s); [|reflexivity]. now rewrite Hc in Hx.
      - intros Ho Hd Hs Hx. apply Q; try assumption.
        destruct (clientClosed s); [|reflexivity]. now rewrite Hc in Hx. }
    destruct ph; (split; [split; assumption|exact Hl]).
  - destruct ph.
    + destruct r as [ls| |]; try (now apply finish_inv).
      destruct (Js.eqb source src_openai) eqn:Eo.
      * destruct (openai_lines_spec source ls s)
          as (C & _ & B & L & S & (w & W & D)).
        assert (Hb' : buf_ok (openai_lines source ls s)).
        { unfold buf_ok in *. now rewrite B, L, S. }
        assert (R' : reading_ok source (openai_lines source ls s)).
        { unfold reading_ok, same_control in *.
          destruct C as (-> & -> & -> & _ & -> & ->).
          destruct H as (H1 & H2 & H3 & H4 & H5 & H6).
          splits; auto; try congruence.
          rewrite W, dones_app. lia. }
        destruct (@loop_test_inv source ok _ Hb' R') as (G & Hl).
        split; [exact G|]. rewrite <- L. exact Hl.
      * destruct (docs_lines_spec source ls s) as (_ & _ & R & B).
        destruct (B Hb) as (Hb' & Hl).
        destruct (@loop_test_inv source ok _ Hb' (R H)) as (G & Hl').
        split; [exact G|]. eapply Nat.le_trans; eassumption.
    + split; [split; assumption|]. destruct r; apply Nat.le_refl.
Qed.

Lemma run_inv (source : jsstring) (ok : bool) (ins : list input) :
  forall c : machine,
    Inv source ok c ->
    Inv source ok (run source ins c)
    /\ lastSentLen (st c) <= lastSentLen (st (run source ins c)).
Proof.
  induction ins as [|i ins IH]; intros c H; cbn [run fold_left].
  - split; [assumption|lia].
  - destruct (@step_inv source ok i c H) as (H1 & L1).
    destruct (IH _ H1) as (H2 & L2). unfold run in *.
    split; [assumption|lia].
Qed.

Lemma run_app (source : jsstring) (ins more : list input) (c : machine) :
  run source (ins ++ more) c = run source more (run source ins c).
Proof. unfold run. apply fold_left_app. Qed.

Lemma reached_inv (source : jsstring) (ok : bool) (statusText : jsstring)
  (ins : list input) :
  Inv source ok (streamModelResponse source ok statusText ins).
Proof. apply run_inv, start_inv. Qed.

(** C6: throughout a session the sent length stays within the buffer, and
    no further input, whatever it is, makes it smaller; the same holds across
    a single flush and across the lines of a single upstream chunk taken from
    any state the session reaches. *)
Theorem sent_length_monotone_bounded (source : jsstring) (ok : bool)
  (statusText : jsstring) (ins more : list input) :
  let c := streamModelResponse source ok statusText ins in
  let c' := streamModelResponse source ok statusText (ins ++ more) in
  lastSentLen (st c) <= List.length (buffer (st c))
  /\ lastSentLen (st c) <= lastSentLen (st c')
  /\ (forall force : bool,
        let s' := flushIfNeeded source force (st c) in
        lastSentLen (st c) <= lastSentLen s'
        /\ lastSentLen s' <= List.length (buffer s'))
  /\ (forall ls : list line,
        let s' := docs_lines source ls (st c) in
        lastSentLen (st c) <= lastSentLen s'
        /\ lastSentLen s' <= List.length (buffer s')).
Proof.
  cbv zeta. pose proof (reached_inv source ok statusText ins) as (Hb & _).
  splits.
  - apply Hb.
  - unfold streamModelResponse. rewrite run_app.
    apply (@run_inv source ok more), reached_inv.
  - intros force.
    destruct (flushIfNeeded_spec source force
                (st (streamModelResponse source ok statusText ins)))
      as (_ & _ & _ & B & _).
    destruct (B Hb) as ((H1 & _) & H2). split; assumption.
  - intros ls.
    destruct (docs_lines_spec source ls
                (st (streamModelResponse source ok statusText ins)))
      as (_ & _ & _ & B).
    destruct (B Hb) as ((H1 & _) & H2). split; assumption.
Qed.

(** ** After a disconnect nothing is written *)

Lemma step_closed (source : jsstring) (i : input) (c : machine) :
  clientClosed (st c) = true ->
  clientClosed (st (step source i c)) = true
  /\ written (st (step source i c)) = written (st c).
Proof.
  destruct c as [ph s]. proj. intros Hc.
  pose proof (blocked_closed s Hc) as Hk.
  assert (Hfin : clientClosed (finish source s) = true
                 /\ written (finish source s) = written s).
  { destruct (finish_spec source s) as (_ & F2 & _ & _ & _ & F6 & _).
    split; [congruence|auto]. }
  destruct i as [e|r]; unfold step; proj.
  - destruct (deliver_spec source e s) as (_ & _ & _ & _ & H1 & H2 & _).
    destruct (H2 Hk) as (_ & W & _).
    destruct ph; proj; (split; [exact (H1 Hc)|exact W]).
  - destruct ph; [|auto].
    destruct r as [ls| |]; try exact Hfin.
    destruct (Js.eqb source src_openai).
    + destruct (openai_lines_spec source ls s) as (_ & E & _).
      rewrite (E Hc). unfold loop_test. rewrite Hc. exact Hfin.
    + destruct (docs_lines_spec source ls s) as (_ & E & _).
      rewrite (E Hc). unfold loop_test. rewrite Hc. exact Hfin.
Qed.

Lemma run_closed (source : jsstring) (ins : list input) :
  forall c : machine,
    clientClosed (st c) = true ->
    clientClosed (st (run source ins c)) = true
    /\ written (st (run source ins c)) = written (st c).
Proof.
  induction ins as [|i ins IH]; intros c Hc; cbn [run fold_left].
  - auto.
  - destruct (step_closed source i c Hc) as (H1 & H2).
    destruct (IH _ H1) as (H3 & H4). unfold run in *.
    split; [assumption|congruence].
Qed.

(** C1: in every session the terminal marker is written at most once; a
    session that has returned after an upstream answer with the client still
    connected has written it exactly once, as its last event; and once the
    disconnect flag is set no further input adds an event to the response. *)
Theorem done_marker_once (source : jsstring) (ok : bool)
  (statusText : jsstring) (ins : list input) :
  let c := streamModelResponse source ok statusText ins in
  dones (written (st c)) <= 1
  /\ (ok = true -> at_ c = Returned -> clientClosed (st c) = false ->
      dones (written (st c)) = 1
      /\ exists pre, written (st c) = pre ++ [Done])
  /\ (forall more : list input,
        clientClosed (st c) = true ->
        written (st (streamModelResponse source ok statusText (ins ++ more)))
        = written (st c)).
Proof.
  cbv zeta. pose proof (reached_inv source ok statusText ins) as (_ & H).
  splits.
  - destruct (at_ _); [destruct H as (_ & -> & _); lia|apply H].
  - intros Ho Hr Hc. rewrite Hr in H. destruct H as (_ & _ & P & _).
    destruct (P Ho Hc) as (pre & -> & Hd).
    rewrite dones_app, Hd. split; [reflexivity|now exists pre].
  - intros more Hc. unfold streamModelResponse in *. rewrite run_app.
    now apply run_closed.
Qed.

Lemma done_marker_once_witness :
  let c := streamModelResponse src_docs true []
             [Read (RChunk [LContent (str "Hello")]); Read RDone] in
  dones (written (st c)) = 1
  /\ exists pre, written (st c) = pre ++ [Done].
Proof.
  cbv zeta.
  apply (done_marker_once src_docs true []
           [Read (RChunk [LContent (str "Hello")]); Read RDone]);
    vm_compute; reflexivity.
Defined.

(** ** The terminal fallback *)

(** C2, as the code has it: a document session that returns with the client
    connected and streaming never started has written the keep-alive
    comment, one content event whose content is the fallback sentence spelt
    with U+2019, and the terminal marker, and nothing else. *)
Theorem fallback_when_never_started (statusText : jsstring)
  (ins : list input) :
  let c := streamModelResponse src_docs true statusText ins in
  at_ c = Returned -> startedStreaming (st c) = false ->
  clientClosed (st c) = false ->
  written (st c) = [Comment; Data src_docs fallback_sentence; Done].
Proof.
  cbv zeta. intros Hr Hs Hc.
  pose proof (reached_inv src_docs true statusText ins) as (_ & H).
  rewrite Hr in H. destruct H as (_ & _ & _ & Q). now apply Q.
Qed.

Lemma fallback_when_never_started_witness :
  written
    (st (streamModelResponse src_docs true []
           [Read (RChunk [LContent (str "I don't know")]); Read RDone]))
  = [Comment; Data src_docs fallback_sentence; Done].
Proof.
  apply (fallback_when_never_started []
           [Read (RChunk [LContent (str "I don't know")]); Read RDone]);
    vm_compute; reflexivity.
Defined.

(** C2 fails as stated: the content sent is not the sentence spelt with the
    ASCII apostrophe. *)
Lemma fallback_not_ascii_apostrophe :
  ~ (forall (statusText : jsstring) (ins : list input),
       let c := streamModelResponse src_docs true statusText ins in
       at_ c = Returned -> startedStreaming (st c) = false ->
       clientClosed (st c) = false ->
       written (st c)
       = [Comment;
          Data src_docs (str "I don't know based on the provided documents.");
          Done]).
Proof.
  intros H. specialize (H [] [Read RDone] eq_refl eq_refl eq_refl).
  vm_compute in H. discriminate H.
Qed.

(** ** Cancelling the upstream reader *)

Lemma step_cancels (source : jsstring) (i : input) (c : machine) :
  cancels (st (step source i c))
  = cancels (st c) + (if fires i c then 1 else 0).
Proof.
  destruct c as [ph s]. destruct i as [e|r]; unfold step, fires; proj.
  - destruct (deliver_spec source e s) as (_ & _ & _ & H & _).
    destruct ph; exact H.
  - rewrite Nat.add_0_r.
    assert (Hfin : cancels (finish source s) = cancels s)
      by apply finish_spec.
    destruct ph; [|reflexivity].
    destruct r as [ls| |]; try exact Hfin.
    assert (Hloop : forall s' : session,
              cancels s' = cancels s ->
              cancels (st (loop_test source s')) = cancels s).
    { intros s' E. unfold loop_test. destruct (clientClosed s'); proj;
        [|exact E].
      rewrite <- E. apply finish_spec. }
    destruct (Js.eqb source src_openai); apply Hloop.
    + apply openai_lines_spec.
    + apply docs_lines_spec.
Qed.

Lemma step_reading (source : jsstring) (i : input) (c : machine) :
  at_ (step source i c) = Reading -> at_ c = Reading.
Proof.
  destruct c as [[] s]; [reflexivity|].
  destruct i as [e|r]; unfold step; proj; auto.
Qed.

(** C7, as the code has it: every input changes the number of calls of
    [reader.cancel()] by one if it is a [close] or [error] event that finds
    its listener installed, and by nothing otherwise; while the handler is
    reading both listeners are installed, so that the number of calls is the
    number of [close] and [error] events delivered so far: one for a single
    event, one more for each duplicate. *)
Theorem cancel_once_per_event (source : jsstring) (statusText : jsstring)
  (ins : list input) :
  let c := streamModelResponse source true statusText ins in
  (forall i : input,
     cancels (st (step source i c))
     = cancels (st c) + (if fires i c then 1 else 0))
  /\ (at_ c = Reading ->
      closeListener (st c) = true /\ errorListener (st c) = true
      /\ cancels (st c) = count_disconnects ins).
Proof.
  cbv zeta. split; [intros i; apply step_cancels|].
  induction ins as [|i ins IH] using rev_ind.
  - intros Hr.
    pose proof (reached_inv source true statusText []) as (_ & H).
    rewrite Hr in H. destruct H as (_ & _ & _ & Hc & He & _).
    splits; auto.
    unfold streamModelResponse, run, start in *. cbn [fold_left negb] in *.
    destruct (Js.eqb source src_openai); reflexivity.
  - unfold streamModelResponse in *. rewrite run_app.
    cbn [run fold_left]. fold (run source ins (start source true statusText)).
    set (c := run source ins (start source true statusText)) in *.
    intros Hr.
    pose proof (reached_inv source true statusText (ins ++ [i])) as (_ & H).
    unfold streamModelResponse in H. rewrite run_app in H.
    cbn [run fold_left] in H.
    fold (run source ins (start source true statusText)) in H. fold c in H.
    rewrite Hr in H. destruct H as (_ & _ & _ & Hc & He & _).
    splits; auto.
    destruct (IH (step_reading source i c Hr)) as (Lc & Le & Ec).
    rewrite step_cancels, Ec.
    unfold count_disconnects. rewrite filter_app, length_app.
    f_equal. unfold fires.
    destruct i as [[]|r]; cbn; rewrite ?Lc, ?Le; reflexivity.
Qed.

Lemma cancel_once_per_event_witness :
  cancels
    (st (streamModelResponse src_docs true []
           [Read (RChunk [LContent (str "Hello")]); Callback EvClose]))
  = 1.
Proof.
  apply (cancel_once_per_event src_docs []
           [Read (RChunk [LContent (str "Hello")]); Callback EvClose]).
  vm_compute. reflexivity.
Defined.

(** C7 fails as stated: an [error] event followed by the [close] event of
    the same disconnect cancels the reader twice. *)
Lemma cancel_twice_on_error_then_close :
  ~ (forall (source statusText : jsstring) (ins : list input),
       1 <= count_disconnects ins ->
       cancels (st (streamModelResponse source true statusText ins)) = 1).
Proof.
  intros H.
  specialize (H src_docs []
                [Read (RChunk [LContent (str "Hello")]);
                 Callback EvError; Callback EvClose; Read RDone]).
  vm_compute in H. assert (E : 2 = 1) by (apply H; repeat constructor).
  discriminate E.
Qed.

(** ** Where the phrase stripper is applied *)

(** C4, as the code has it: before streaming starts every appended token is
    followed by a pass of the stripper over the whole buffer; once streaming
    has started neither an append nor a flush rewrites the buffer, but a
    flush that forwards passes the pending increment, the buffer beyond
    [lastSentLen], through the stripper and [trim] before it is sent. *)
Theorem stripping_scope (source content : jsstring) (force : bool)
  (s : session) :
  nonempty content = true -> clientClosed s = false ->
  (startedStreaming s = false ->
   docs_lines source [LContent content] s
   = flushIfNeeded source false
       (set_buffer (stripLeadingPhrases (buffer s ++ content)) s))
  /\ (startedStreaming s = true ->
      buffer (docs_lines source [LContent content] s) = buffer s ++ content
      /\ buffer (flushIfNeeded source force s) = buffer s)
  /\ (startedStreaming s = true -> blocked s = false ->
      force = true
      \/ (MIN_SEND_DELTA
          <= Z.of_nat (List.length (buffer s)) - Z.of_nat (lastSentLen s))%Z ->
      let chunk :=
        trim (stripLeadingPhrases (slice_from (lastSentLen s) (buffer s))) in
      written (flushIfNeeded source force s)
      = if nonempty chunk
        then written s ++ (if statusPingSent s then [] else [Comment])
               ++ [Data source chunk]
        else written s).
Proof.
  intros Hn Hc. splits.
  - intros Hs. cbn [docs_lines]. rewrite Hc, Hn. proj. rewrite Hs.
    reflexivity.
  - intros Hs. cbn [docs_lines]. rewrite Hc, Hn. proj. rewrite Hs.
    cbn [negb].
    destruct (flushIfNeeded_spec source false (set_buffer (buffer s ++ content) s))
      as (_ & _ & B & _).
    destruct (flushIfNeeded_spec source force s) as (_ & _ & B' & _).
    proj. split; [apply (B Hs)|apply (B' Hs)].
  - intros Hs Hk Hf. cbv zeta. unfold flushIfNeeded. rewrite Hk, Hs.
    cbn [negb].
    assert (E : ((MIN_SEND_DELTA
                  <=? Z.of_nat (List.length (buffer s))
                      - Z.of_nat (lastSentLen s))%Z || force)%bool = true).
    { destruct Hf as [->|Hf]; [apply orb_true_r|].
      apply Z.leb_le in Hf. now rewrite Hf. }
    rewrite E.
    destruct (forwardIncrement_spec source s) as (_ & _ & _ & _ & W).
    rewrite W, sendChunk_written, Hk, orb_false_r.
    destruct (nonempty (trim _)); reflexivity.
Qed.

Lemma stripping_scope_witness :
  let s := st (streamModelResponse src_docs true []
                 [Read (RChunk [LContent (str "Hello")]);
                  Callback EvStartTimeout;
                  Read (RChunk [LContent (str " I do")])]) in
  written (flushIfNeeded src_docs true s) = written s.
Proof.
  cbv zeta.
  set (s := st (streamModelResponse src_docs true []
                  [Read (RChunk [LContent (str "Hello")]);
                   Callback EvStartTimeout;
                   Read (RChunk [LContent (str " I do")])])).
  assert (Hn : nonempty (str "x") = true) by reflexivity.
  assert (Hc : clientClosed s = false) by (vm_compute; reflexivity).
  destruct (stripping_scope src_docs (str "x") true s Hn Hc) as (_ & _ & H).
  rewrite H; [vm_compute; reflexivity..|left; reflexivity].
Defined.

(** C4 fails as stated: in the streaming state a flush does not forward the
    pending increment as it is. After [Hello] has been sent, the increment
    [ I do] is stripped to nothing and never reaches the client. *)
Lemma streaming_increment_is_stripped :
  ~ (forall (source : jsstring) (s : session),
       startedStreaming s = true -> blocked s = false ->
       written (flushIfNeeded source true s)
       = written
           (sendChunk source
              (trim (slice_from (lastSentLen s) (buffer s))) s)).
Proof.
  intros H.
  specialize (H src_docs
    (st (streamModelResponse src_docs true []
           [Read (RChunk [LContent (str "Hello")]);
            Callback EvStartTimeout;
            Read (RChunk [LContent (str " I do")])]))
    eq_refl eq_refl).
  vm_compute in H. discriminate H.
Qed.

(** * Further properties *)

Import Ingest IndexSpec.

(** ** The phrase stripper leaves no leading punctuation *)

Lemma star_rest (p : char -> bool) (s : jsstring) :
  forall prev : option char,
    star p prev s (fun _ rest => Some rest) = Some (drop_while p s).
Proof.
  induction s as [|c s IH]; intros prev; cbn [star drop_while].
  - reflexivity.
  - destruct (p c); [now rewrite IH|reflexivity].
Qed.

Lemma remove_plus (p : char -> bool) (s : jsstring) :
  remove_start (Plus p) s = drop_while p s.
Proof.
  unfold remove_start, match_start, Plus. cbn [exec].
  destruct s as [|c s]; [reflexivity|]. cbn [drop_while].
  destruct (p c); [now rewrite star_rest|reflexivity].
Qed.

Lemma drop_while_head (p : char -> bool) (s : jsstring) (c : char)
  (r : jsstring) :
  drop_while p s = c :: r -> p c = false.
Proof.
  induction s as [|d s IH]; cbn [drop_while]; [discriminate|].
  destruct (p d) eqn:E; [exact IH|]. intros H. inversion H; subst. exact E.
Qed.

(** X1: what [stripLeadingPhrases] returns never begins with a character of
    its last rule: no white space, quote, apostrophe, backtick or one of
    [. , : ; - ( )]. *)
Theorem stripLeadingPhrases_head (s : jsstring) (c : char) (r : jsstring) :
  stripLeadingPhrases s = c :: r -> punct c = false /\ is_space c = false.
Proof.
  destruct s as [|d s]; [discriminate|].
  unfold stripLeadingPhrases. unfold re_punct. rewrite remove_plus.
  intros H. apply drop_while_head in H. split; [exact H|].
  unfold punct in H. rewrite !orb_false_iff in H. tauto.
Qed.

Lemma stripLeadingPhrases_head_witness :
  stripLeadingPhrases (str " ... (well") = str "well"
  /\ punct 119%N = false /\ is_space 119%N = false.
Proof.
  split; [vm_compute; reflexivity|].
  apply (@stripLeadingPhrases_head (str " ... (well") 119%N (str "ell")).
  vm_compute. reflexivity.
Defined.

(** ** Short single words are chitchat *)

Lemma drop_while_keeps (p : char -> bool) (s : jsstring) :
  Forall (fun c => p c = false) s -> drop_while p s = s.
Proof.
  intros H. destruct H as [|c s Hc Hs]; [reflexivity|].
  cbn [drop_while]. now rewrite Hc.
Qed.

Lemma trim_keeps (s : jsstring) :
  Forall (fun c => is_space c = false) s -> trim s = s.
Proof.
  intros H. unfold trim. rewrite (drop_while_keeps _ H).
  rewrite drop_while_keeps; [apply rev_involutive|now apply Forall_rev].
Qed.

Lemma capital_not_space (c : char) :
  between 65 90 c = true ->
  is_space c = false /\ is_space (c + 32)%N = false.
Proof.
  unfold between, is_space, between. rewrite andb_true_iff, !N.leb_le.
  intros [H1 H2].
  rewrite !orb_false_iff, !andb_false_iff, !N.leb_gt, !N.eqb_neq.
  repeat split; lia.
Qed.

Lemma toLowerCase_no_space (s : jsstring) :
  Forall (fun c => is_space c = false) s ->
  Forall (fun c => is_space c = false) (toLowerCase s).
Proof.
  unfold toLowerCase. intros H. apply Forall_map.
  eapply Forall_impl; [|exact H]. cbn beta. intros c Hc.
  destruct (between 65 90 c) eqn:E; [|exact Hc].
  now apply capital_not_space.
Qed.

Lemma split_go_no_space (s : jsstring) :
  forall cur : jsstring,
    Forall (fun c => is_space c = false) s ->
    split_go false cur s = [rev cur ++ s].
Proof.
  induction s as [|c s IH]; intros cur H; cbn [split_go].
  - now rewrite app_nil_r.
  - inversion H as [|? ? Hc Hs]; subst. rewrite Hc, (IH _ Hs).
    cbn [rev]. now rewrite <- app_assoc.
Qed.

(** X2: an ASCII question that is one word of at most four code units (no
    white space in it) is classified as chitchat, whatever the word is; so
    are the question words [who], [why], [how], [what] and [when] on their
    own. (On ASCII input [toLowerCase] is the function of the source.) *)
Theorem short_token_is_chitchat (question : jsstring) :
  question <> [] ->
  Forall (fun c => (c < 128)%N) question ->
  Forall (fun c => is_space c = false) question ->
  List.length question <= 4 ->
  isLikelyChitchat question = true.
Proof.
  intros Hne _ Hns Hlen. unfold isLikelyChitchat.
  destruct question as [|c q]; [congruence|]. cbn [nonempty negb].
  rewrite (trim_keeps Hns).
  destruct (test_start greetingRegex _); [reflexivity|].
  unfold split_space.
  rewrite (split_go_no_space [] (toLowerCase_no_space Hns)).
  cbn [rev app]. unfold toLowerCase at 1 2. cbn [List.map List.filter nonempty hd].
  cbn [List.length Nat.eqb]. rewrite length_map.
  cbn [List.length] in Hlen.
  match goal with
  | |- context [Nat.leb ?a 4] =>
      assert (E : Nat.leb a 4 = true) by (apply Nat.leb_le; exact Hlen);
      rewrite E
  end.
  reflexivity.
Qed.

Lemma short_token_is_chitchat_witness :
  isLikelyChitchat (str "what") = true.
Proof.
  apply short_token_is_chitchat.
  - discriminate.
  - repeat constructor.
  - repeat constructor.
  - cbn. lia.
Defined.

(** ** The score list of a query *)

Lemma insert_desc_perm (x : Scored) (ys : list Scored) :
  Permutation (insert_desc x ys) (x :: ys).
Proof.
  induction ys as [|y ys IH]; cbn [insert_desc]; [reflexivity|].
  destruct (_ <? _)%float; [|reflexivity].
  rewrite IH. apply perm_swap.
Qed.

Lemma sort_desc_perm (l : list Scored) : Permutation (sort_desc l) l.
Proof.
  induction l as [|x l IH]; cbn; [reflexivity|].
  fold (sort_desc l). rewrite insert_desc_perm. now constructor.
Qed.

Lemma map_index_length (A B : Type) (f : A -> nat -> B) (l : list A) :
  forall i : nat, List.length (map_index f i l) = List.length l.
Proof. induction l as [|x l IH]; intros i; cbn; [|rewrite IH]; reflexivity. Qed.

Lemma map_index_docs (st : SimpleVectorStore) (q : list float)
  (vs : list (list float)) :
  forall i : nat,
    i + List.length vs <= List.length (documents st) ->
    Forall (fun s => doc s <> None)
      (map_index
         (fun vec i =>
            {| doc := List.nth_error (documents st) i;
               score := cosineSimilarity vec q |})
         i vs).
Proof.
  induction vs as [|v vs IH]; intros i H; cbn [map_index]; constructor.
  - cbn [doc]. apply nth_error_Some. cbn [List.length] in H. lia.
  - apply IH. cbn [List.length] in H. lia.
Qed.

(** X3: [getScoresForQuery] fails exactly when the embedding of the query
    could not be fetched; otherwise its result is a rearrangement of one
    entry per stored vector, entry [i] pairing [documents[i]] with the cosine
    similarity of [vectors[i]] and the query. *)
Theorem getScoresForQuery_rearranges (st : SimpleVectorStore) :
  getScoresForQuery st None = inl EmbeddingFailure
  /\ forall q : list float,
       exists scores,
         getScoresForQuery st (Some q) = inr scores
         /\ Permutation scores (scored_entries st q)
         /\ List.length scores = List.length (vectors st).
Proof.
  split; [reflexivity|]. intros q. eexists. split; [reflexivity|].
  fold (scored_entries st q). split; [apply sort_desc_perm|].
  rewrite (Permutation_length (sort_desc_perm _)).
  apply map_index_length.
Qed.

(** ** An aligned store never makes [askDocsStream] throw a type error *)

Lemma aligned_scores_have_docs (st : SimpleVectorStore) (q : list float)
  (scores : list Scored) :
  aligned st -> getScoresForQuery st (Some q) = inr scores ->
  Forall (fun s => doc s <> None) scores.
Proof.
  unfold aligned. intros Ha H. inversion H; subst.
  eapply Permutation_Forall; [symmetry; apply sort_desc_perm|].
  apply map_index_docs. lia.
Qed.

Lemma firstn_Forall (A : Type) (P : A -> Prop) (n : nat) (l : list A) :
  Forall P l -> Forall P (firstn n l).
Proof.
  intros H. rewrite <- (firstn_skipn n l) in H.
  now apply Forall_app in H.
Qed.

Lemma slice0_Forall (A : Type) (P : A -> Prop) (k : Z) (l : list A) :
  Forall P l -> Forall P (slice0 k l).
Proof.
  intros H. unfold slice0. destruct (k <? 0)%Z; now apply firstn_Forall.
Qed.

Lemma choose_Forall (P : Scored -> Prop) (topK : Z) (threshold : float)
  (scores : list Scored) :
  Forall P scores -> Forall P (choose topK threshold scores).
Proof.
  intros H. unfold choose. destruct (Nat.ltb 0 _).
  - apply slice0_Forall. apply Forall_forall. intros x Hx.
    apply filter_In in Hx as [Hx _]. revert x Hx. now apply Forall_forall.
  - now apply slice0_Forall.
Qed.

Lemma pageContents_total (ds : list (option Document)) :
  Forall (fun d => d <> None) ds -> exists cs, pageContents ds = Some cs.
Proof.
  induction 1 as [|d ds Hd Hds [cs IH]]; cbn [pageContents]; [eauto|].
  destruct d as [d|]; [|congruence]. rewrite IH. eauto.
Qed.

(** X4: on a store whose two arrays have the same length, [askDocsStream]
    never reads [pageContent] of [undefined]: up to its call of
    [streamModelResponse] it throws only when the question is not chitchat
    and its embedding cannot be fetched. *)
Theorem route_fails_only_on_embedding
  (embed : jsstring -> option (list float)) (cfg : Config)
  (question : jsstring) (vectorStore : SimpleVectorStore) :
  aligned vectorStore ->
  forall e : error,
    outcome (route embed cfg question vectorStore) = inl e <->
    (e = EmbeddingFailure /\ isLikelyChitchat question = false
     /\ embed question = None).
Proof.
  intros Ha e. unfold route.
  destruct (isLikelyChitchat question) eqn:Ec; cbn [outcome].
  - split; [discriminate|intros (_ & H & _); discriminate].
  - destruct (embed question) as [q|] eqn:Ee.
    + destruct (getScoresForQuery vectorStore (Some q)) as [err|scores] eqn:Eg;
        [discriminate|].
      pose proof (aligned_scores_have_docs Ha Eg) as Hd.
      destruct (decide (topK cfg) scores) as [|chosen] eqn:Ed; cbn [outcome].
      * split; [discriminate|intros (_ & _ & H); discriminate].
      * unfold decide in Ed. destruct (_ <? _)%float; [discriminate|].
        inversion Ed; subst.
        destruct (pageContents_total
                    (ds := List.map doc
                             (choose (effective_topK (topK cfg))
                                (adaptiveThreshold 0.2 (topScoreOf scores))
                                scores))) as [cs Hcs].
        { apply Forall_map. now apply choose_Forall. }
        rewrite Hcs. cbn [outcome].
        split; [discriminate|intros (_ & _ & H); discriminate].
    + cbn [getScoresForQuery outcome]. split.
      * intros H. inversion H. auto.
      * intros (-> & _). reflexivity.
Qed.

Lemma route_fails_only_on_embedding_witness :
  outcome (route (fun _ => None) config
             (str "what is the refund policy") empty_store)
  = inl EmbeddingFailure.
Proof.
  apply (@route_fails_only_on_embedding (fun _ => None) config
           (str "what is the refund policy") empty_store eq_refl).
  repeat split.
Defined.

(** ** Which chunks the retrieval policy keeps *)

Lemma slice0_firstn (A : Type) (k : Z) (l : list A) :
  (0 <= k)%Z -> slice0 k l = firstn (Z.to_nat k) l.
Proof. intros H. unfold slice0. destruct (Z.ltb_spec k 0); [lia|reflexivity]. Qed.

Lemma filter_passes_Forall (threshold : float) (l : list Scored) :
  Forall (fun s => passes threshold s = true) (List.filter (passes threshold) l).
Proof.
  apply Forall_forall. intros x Hx. now apply filter_In in Hx.
Qed.

Lemma choose_some_passes (topK : Z) (threshold : float)
  (scores : list Scored) :
  (1 <= topK)%Z ->
  (exists s, In s scores /\ passes threshold s = true) ->
  choose topK threshold scores
  = firstn (Z.to_nat topK) (List.filter (passes threshold) scores)
  /\ Forall (fun s => passes threshold s = true)
       (choose topK threshold scores).
Proof.
  intros Hk (s & Hin & Hp). unfold choose. fold (passes threshold).
  rewrite !slice0_firstn by lia.
  assert (Hf : In s (List.filter (passes threshold) scores))
    by (apply filter_In; auto).
  destruct (List.filter (passes threshold) scores) as [|x f] eqn:E;
    [destruct Hf|].
  destruct (Z.to_nat topK) as [|n] eqn:En; [lia|].
  cbn [firstn List.length Nat.ltb Nat.leb]. split; [reflexivity|].
  rewrite <- (firstn_cons n x f). apply firstn_Forall.
  rewrite <- E. apply filter_passes_Forall.
Qed.

(** X5: with a fan-out of at least one, the retrieval policy keeps the first
    [topK] entries that reach the threshold, in their order, whenever some
    entry reaches it; only when none does, it keeps the first [topK] entries
    as they are. *)
Theorem choose_passing_or_leading (topK : Z) (threshold : float)
  (scores : list Scored) :
  (1 <= topK)%Z ->
  ((exists s, In s scores /\ passes threshold s = true) ->
   choose topK threshold scores
   = firstn (Z.to_nat topK) (List.filter (passes threshold) scores)
   /\ Forall (fun s => passes threshold s = true)
        (choose topK threshold scores))
  /\ ((forall s, In s scores -> passes threshold s = false) ->
      choose topK threshold scores = firstn (Z.to_nat topK) scores).
Proof.
  intros Hk. split.
  - now apply choose_some_passes.
  - intros Hnone. unfold choose. fold (passes threshold).
    rewrite !slice0_firstn by lia.
    assert (E : List.filter (passes threshold) scores = []).
    { destruct (List.filter (passes threshold) scores) as [|x f] eqn:E;
        [reflexivity|].
      assert (Hx : In x (List.filter (passes threshold) scores))
        by (rewrite E; now left).
      apply filter_In in Hx as [Hx Hp]. rewrite (Hnone _ Hx) in Hp.
      discriminate. }
    rewrite E, firstn_nil. reflexivity.
Qed.

Lemma choose_passing_or_leading_witness :
  let a := {| doc := None; score := 0.9%float |} in
  let b := {| doc := None; score := 0.1%float |} in
  let c := {| doc := None; score := 0.6%float |} in
  choose 2 0.5%float [a; b; c] = [a; c]
  /\ choose 2 0.95%float [a; b; c] = [a; b].
Proof.
  cbv zeta.
  assert (H2 : (1 <= 2)%Z) by lia.
  split.
  - destruct (choose_passing_or_leading 0.5%float
                [ {| doc := None; score := 0.9%float |};
                  {| doc := None; score := 0.1%float |};
                  {| doc := None; score := 0.6%float |} ] H2) as (H & _).
    destruct H as (H & _); [|rewrite H; reflexivity].
    eexists. split; [left; reflexivity|reflexivity].
  - destruct (choose_passing_or_leading 0.95%float
                [ {| doc := None; score := 0.9%float |};
                  {| doc := None; score := 0.1%float |};
                  {| doc := None; score := 0.6%float |} ] H2) as (_ & H).
    rewrite H; [reflexivity|].
    intros s [<-|[<-|[<-|[]]]]; reflexivity.
Defined.

Lemma SFleb_trans (a b c : SpecFloat.spec_float) :
  SpecFloat.SFleb a b = true -> SpecFloat.SFleb b c = true ->
  SpecFloat.SFleb a c = true.
Proof.
  unfold SpecFloat.SFleb.
  destruct a as [sa|sa| |sa ma ea], b as [sb|sb| |sb mb eb],
    c as [sc|sc| |sc mc ec]; cbn;
    repeat match goal with s : bool |- _ => destruct s end; cbn;
    try discriminate; try reflexivity; intros H1 H2.
  all: repeat match goal with
       | H : context [Z.compare ?x ?y] |- _ =>
           destruct (Z.compare_spec x y); try discriminate
       | |- context [Z.compare ?x ?y] =>
           destruct (Z.compare_spec x y); try reflexivity; try lia
       end.
  all: subst.
  all: repeat match goal with
       | H : context [Pos.compare_cont Eq ?x ?y] |- _ =>
           change (Pos.compare_cont Eq x y) with (Pos.compare x y) in H;
           destruct (Pos.compare_spec x y); try discriminate
       | |- context [Pos.compare_cont Eq ?x ?y] =>
           change (Pos.compare_cont Eq x y) with (Pos.compare x y);
           destruct (Pos.compare_spec x y); try reflexivity; try lia
       end.
  all: try (cbn in *; congruence).
  all: try lia.
Qed.

Lemma leb_trans (a b c : float) :
  (a <=? b)%float = true -> (b <=? c)%float = true -> (a <=? c)%float = true.
Proof. rewrite !leb_spec. apply SFleb_trans. Qed.

Lemma ltb_leb (a b : float) :
  (a <? b)%float = true -> (a <=? b)%float = true.
Proof.
  rewrite ltb_spec, leb_spec. unfold SpecFloat.SFltb, SpecFloat.SFleb.
  destruct (SpecFloat.SFcompare _ _) as [[]|]; congruence.
Qed.

Lemma adaptiveThreshold_below_top (x : float) :
  (MIN_SCORE_FOR_DOCS <=? x)%float = true ->
  (adaptiveThreshold 0.2 x <=? x)%float = true.
Proof.
  intros H. unfold adaptiveThreshold.
  destruct (0.9 <? x)%float eqn:E9.
  - apply (@leb_trans _ 0.9%float); [reflexivity|now apply ltb_leb].
  - destruct (0.8 <? x)%float eqn:E8.
    + apply (@leb_trans _ 0.8%float); [reflexivity|now apply ltb_leb].
    + apply (@leb_trans _ MIN_SCORE_FOR_DOCS); [reflexivity|exact H].
Qed.

(** X6: in [askDocsStream], when the first entry of a score list scores at
    least 0.25, the adaptive threshold (0.75, 0.7 or 0.2) lies at or below
    that score: the document prompt is built from the first entry followed
    by further entries that all reach the threshold, and the unfiltered
    fallback is not used. *)
Theorem decide_keeps_top (config_topK : Z) (s : Scored) (rest : list Scored) :
  (0 <= config_topK)%Z ->
  (MIN_SCORE_FOR_DOCS <=? score s)%float = true ->
  let threshold := adaptiveThreshold 0.2 (score s) in
  exists more,
    decide config_topK (s :: rest) = Docs (s :: more)
    /\ s :: more
       = firstn (Z.to_nat (effective_topK config_topK))
           (List.filter (passes threshold) (s :: rest))
    /\ Forall (fun x => passes threshold x = true) (s :: more).
Proof.
  intros Hc Hs. cbv zeta.
  pose proof (effective_topK_pos Hc) as Hk.
  pose proof (adaptiveThreshold_below_top Hs) as Ht.
  unfold decide. cbn [topScoreOf].
  rewrite (quarter_le_truthy Hs), (leb_not_ltb Hs).
  destruct (@choose_some_passes (effective_topK config_topK)
              (adaptiveThreshold 0.2 (score s)) (s :: rest) Hk) as (E & F);
    [exists s; split; [now left|exact Ht]|].
  rewrite E in F |- *.
  assert (Hp : passes (adaptiveThreshold 0.2 (score s)) s = true)
    by exact Ht.
  cbn [List.filter] in F |- *. rewrite Hp in F |- *.
  destruct (Z.to_nat (effective_topK config_topK)) as [|n] eqn:En; [lia|].
  cbn [firstn] in F |- *. eexists. split; [reflexivity|].
  split; [reflexivity|exact F].
Qed.

Lemma decide_keeps_top_witness :
  exists more,
    decide 4 [ {| doc := None; score := 0.3%float |};
               {| doc := None; score := 0.1%float |} ]
    = Docs ({| doc := None; score := 0.3%float |} :: more).
Proof.
  assert (H4 : (0 <= 4)%Z) by lia.
  destruct (@decide_keeps_top 4 {| doc := None; score := 0.3%float |}
              [ {| doc := None; score := 0.1%float |} ] H4 eq_refl)
    as (more & H & _).
  exists more. exact H.
Defined.

(** ** Chunking and loading the documents *)

Lemma match_chunks_fuel_nil (fuel : nat) : match_chunks_fuel fuel [] = [].
Proof. destruct fuel; reflexivity. Qed.

Lemma match_chunks_fuel_spec (fuel : nat) :
  forall s : jsstring,
    List.length s <= fuel ->
    List.concat (match_chunks_fuel fuel s) = s
    /\ Forall (fun c => 1 <= List.length c <= CHUNK_SIZE)
         (match_chunks_fuel fuel s)
    /\ forall i : nat,
         S i < List.length (match_chunks_fuel fuel s) ->
         List.length (nth i (match_chunks_fuel fuel s) []) = CHUNK_SIZE.
Proof.
  induction fuel as [|fuel IH]; intros s Hs.
  - destruct s; [|cbn in Hs; lia]. cbn. repeat split; [constructor|].
    intros i H. lia.
  - destruct s as [|c s]; [cbn; repeat split; [constructor|intros i H; lia]|].
    cbn [match_chunks_fuel].
    set (s0 := c :: s) in *.
    assert (Hpos : 1 <= List.length s0) by (subst s0; cbn; lia).
    assert (Hrest : List.length (skipn CHUNK_SIZE s0) <= fuel).
    { rewrite length_skipn. unfold CHUNK_SIZE. lia. }
    destruct (IH _ Hrest) as (Hc & Hf & Hn).
    split; [|split].
    + cbn [List.concat]. rewrite Hc. apply firstn_skipn.
    + constructor; [|exact Hf].
      rewrite length_firstn. unfold CHUNK_SIZE. lia.
    + intros [|i] Hi; cbn [nth List.length] in *.
      * destruct (skipn CHUNK_SIZE s0) as [|d r] eqn:E.
        { rewrite match_chunks_fuel_nil in Hi. cbn in Hi. lia. }
        assert (Hl : List.length (skipn CHUNK_SIZE s0) = S (List.length r))
          by now rewrite E.
        rewrite length_skipn in Hl. rewrite length_firstn. lia.
      * apply Hn. lia.
Qed.

(** X7: [loadDocs] cuts the text into consecutive chunks that lose nothing
    (their concatenation is the text), each of 1 to 1000 code units, and all
    but the last of exactly 1000. *)
Theorem match_chunks_partition (allText : jsstring) :
  List.concat (match_chunks allText) = allText
  /\ Forall (fun c => 1 <= List.length c <= CHUNK_SIZE)
       (match_chunks allText)
  /\ forall i : nat,
       S i < List.length (match_chunks allText) ->
       List.length (nth i (match_chunks allText) []) = CHUNK_SIZE.
Proof. apply match_chunks_fuel_spec. apply Nat.le_refl. Qed.





(** ** The transcript of a session *)

Import StreamFormat.

Lemma step_returned (source : jsstring) (i : input) (c : machine) :
  at_ c = Returned -> blocked (st c) = true ->
  at_ (step source i c) = Returned
  /\ blocked (st (step source i c)) = true
  /\ written (st (step source i c)) = written (st c)
  /\ closeListener (st (step source i c)) = closeListener (st c)
  /\ errorListener (st (step source i c)) = errorListener (st c)
  /\ writableEnded (st (step source i c)) = writableEnded (st c)
  /\ cancels (st (step source i c))
     = cancels (st c) + (if fires i c then 1 else 0).
Proof.
  destruct c as [ph s]. proj. intros -> Hk.
  destruct i as [e|r]; unfold step, fires; proj.
  - destruct (deliver_spec source e s) as (H1 & H2 & H3 & H4 & _ & H6 & _).
    destruct (H6 Hk) as (K & W & _). splits; auto.
  - splits; auto.
Qed.

Lemma run_returned (source : jsstring) (more : list input) :
  forall c : machine,
    at_ c = Returned -> blocked (st c) = true ->
    at_ (run source more c) = Returned
    /\ written (st (run source more c)) = written (st c).
Proof.
  induction more as [|i more IH]; intros c Hr Hk; cbn [run fold_left].
  - auto.
  - destruct (step_returned source i c Hr Hk) as (H1 & H2 & H3 & _).
    destruct (IH _ H1 H2) as (H4 & H5). unfold run in *.
    split; [assumption|congruence].
Qed.

(** X9: once the handler has returned, the transcript is final: no callback
    that still arrives (a late [error] event, the tick of a flush interval
    that was never cleared) and no further input writes to the response. *)
Theorem transcript_final_after_return (source : jsstring) (ok : bool)
  (statusText : jsstring) (ins more : list input) :
  at_ (streamModelResponse source ok statusText ins) = Returned ->
  at_ (streamModelResponse source ok statusText (ins ++ more)) = Returned
  /\ written (st (streamModelResponse source ok statusText (ins ++ more)))
     = written (st (streamModelResponse source ok statusText ins)).
Proof.
  intros Hr. pose proof (reached_inv source ok statusText ins) as (_ & H).
  rewrite Hr in H. destruct H as (Hk & _).
  unfold streamModelResponse in *. rewrite run_app.
  now apply run_returned.
Qed.

Lemma transcript_final_after_return_witness :
  written
    (st (streamModelResponse src_docs true []
           ([Read (RChunk [LContent (str "Hello")]); Read RDone]
            ++ [Callback EvFlushTick; Callback EvError])))
  = written
      (st (streamModelResponse src_docs true []
             [Read (RChunk [LContent (str "Hello")]); Read RDone])).
Proof.
  apply (@transcript_final_after_return src_docs true []
           [Read (RChunk [LContent (str "Hello")]); Read RDone]
           [Callback EvFlushTick; Callback EvError]).
  vm_compute. reflexivity.
Defined.

(** X10: when the upstream answers with a failure status, the response gets
    the single line [data: Error: statusText] and is ended; no terminal
    marker is written, no listener is installed, and whatever happens
    afterwards the reader is never cancelled and nothing more is written. *)
Theorem upstream_failure_single_error (source statusText : jsstring)
  (ins : list input) :
  let c := streamModelResponse source false statusText ins in
  at_ c = Returned
  /\ written (st c) = [ErrorLine statusText]
  /\ writableEnded (st c) = true
  /\ cancels (st c) = 0.
Proof.
  cbv zeta. unfold streamModelResponse.
  assert (H : forall c : machine,
    at_ c = Returned ->
    writableEnded (st c) = true -> closeListener (st c) = false ->
    errorListener (st c) = false -> cancels (st c) = 0 ->
    at_ (run source ins c) = Returned
    /\ written (st (run source ins c)) = written (st c)
    /\ writableEnded (st (run source ins c)) = true
    /\ cancels (st (run source ins c)) = 0).
  { induction ins as [|i ins IH]; intros c Hr Hw Hc He Hn;
      cbn [run fold_left]; [auto|].
    assert (Hk : blocked (st c) = true)
      by (unfold blocked; rewrite Hw; now destruct (ended (st c))).
    destruct (step_returned source i c Hr Hk)
      as (H1 & H2 & H3 & H4 & H5 & H6 & H7).
    assert (Hf : fires i c = false).
    { destruct i as [[]|]; cbn; auto. }
    rewrite Hf, Nat.add_0_r in H7.
    destruct (IH (step source i c)) as (G1 & G2 & G3 & G4);
      try congruence.
    unfold run in *. splits; congruence. }
  apply H; reflexivity.
Qed.

(** X11: in a document session nothing reaches the client while the answer
    is being buffered: as long as the handler is reading and streaming has
    not started, the transcript is empty and the keep-alive comment has not
    been sent. *)
Theorem buffering_is_silent (source statusText : jsstring)
  (ins : list input) :
  let c := streamModelResponse source true statusText ins in
  Js.eqb source src_openai = false ->
  at_ c = Reading -> startedStreaming (st c) = false ->
  written (st c) = [] /\ statusPingSent (st c) = false.
Proof.
  cbv zeta. intros Ho Hr Hs.
  pose proof (reached_inv source true statusText ins) as (_ & H).
  rewrite Hr in H. destruct H as (_ & _ & _ & _ & _ & H). now apply H.
Qed.

Lemma buffering_is_silent_witness :
  written
    (st (streamModelResponse src_docs true []
           [Read (RChunk [LContent (str "The refund")])]))
  = [].
Proof.
  apply (@buffering_is_silent src_docs []
           [Read (RChunk [LContent (str "The refund")])]);
    vm_compute; reflexivity.
Defined.

(** ** General-knowledge mode passes the tokens through *)

Lemma openai_lines_forward (source : jsstring) (ls : list line) :
  forall s : session,
    blocked s = false ->
    written (openai_lines source ls s)
    = written s ++ List.map (Data source) (forwarded ls).
Proof.
  induction ls as [|l ls IH]; intros s Hk;
    cbn [openai_lines forwarded List.map].
  - now rewrite app_nil_r.
  - assert (Hc : clientClosed s = false /\ writableEnded s = false).
    { unfold blocked in Hk. rewrite !orb_false_iff in Hk. tauto. }
    destruct Hc as (Hc & Hw). rewrite Hc, Hw. cbn [negb andb].
    destruct l as [|content|].
    + now rewrite app_nil_r.
    + rewrite !andb_true_r. destruct (nonempty content).
      * destruct (safeWrite_spec (Data source content) s)
          as (C & _ & _ & _ & _ & W).
        rewrite IH by now rewrite (same_control_blocked C).
        rewrite W, Hk. cbn [List.map]. now rewrite <- app_assoc.
      * now apply IH.
    + now apply IH.
Qed.

Lemma run_openai_reads (source : jsstring) (chunks : list (list line)) :
  Js.eqb source src_openai = true ->
  forall s : session,
    blocked s = false ->
    let c := run source
               (List.map (fun ls => Read (RChunk ls)) chunks ++ [Read RDone])
               {| at_ := Reading; st := s |} in
    at_ c = Returned
    /\ written (st c)
       = written s ++ List.map (Data source) (flat_map forwarded chunks)
         ++ [Done].
Proof.
  intros Ho. induction chunks as [|ls chunks IH]; intros s Hk; cbv zeta.
  - cbn [List.map app run fold_left step at_ st flat_map].
    split; [reflexivity|]. unfold finish. rewrite Ho. unfold finally_openai.
    destruct (clearTimers_same s) as (C1 & _ & _ & _ & W1 & _).
    destruct (terminate_spec (clearTimers s))
      as (T1 & _ & _ & _ & _ & _ & _ & _ & T9).
    rewrite (same_control_blocked C1), Hk, W1 in T9.
    destruct (finally_outer_spec source (terminate (clearTimers s)))
      as (_ & _ & _ & _ & _ & F & _).
    rewrite F by (unfold blocked; now rewrite T1).
    exact T9.
  - destruct (openai_lines_spec source ls s) as (C & _).
    pose proof (same_control_blocked C) as K. rewrite Hk in K.
    assert (Hc : clientClosed (openai_lines source ls s) = false).
    { unfold blocked in K. rewrite !orb_false_iff in K. tauto. }
    assert (E : step source (Read (RChunk ls)) {| at_ := Reading; st := s |}
                = {| at_ := Reading; st := openai_lines source ls s |}).
    { unfold step. proj. rewrite Ho. unfold loop_test. now rewrite Hc. }
    cbn [List.map app]. unfold run. cbn [fold_left]. rewrite E.
    destruct (IH _ K) as (H1 & H2). unfold run in H1, H2.
    split; [exact H1|].
    rewrite H2, (@openai_lines_forward source ls s Hk).
    cbn [flat_map]. rewrite map_app, <- !app_assoc. reflexivity.
Qed.

(** X12: in general-knowledge mode, when the client stays connected, the
    client receives the keep-alive comment, then every non-empty token of
    the upstream in arrival order and unchanged (the phrase stripper and
    [trim] are not applied, and nothing is held back), then the terminal
    marker. Within one upstream chunk the lines after an end marker are
    skipped. *)
Theorem openai_passes_tokens_through (statusText : jsstring)
  (chunks : list (list line)) :
  let c := streamModelResponse src_openai true statusText
             (List.map (fun ls => Read (RChunk ls)) chunks ++ [Read RDone]) in
  at_ c = Returned
  /\ written (st c)
     = Comment
       :: List.map (Data src_openai) (flat_map forwarded chunks) ++ [Done].
Proof.
  cbv zeta. unfold streamModelResponse.
  change (start src_openai true statusText)
    with {| at_ := Reading; st := sendPing (ensureHeaders (listen fresh)) |}.
  apply (@run_openai_reads src_openai chunks eq_refl
           (sendPing (ensureHeaders (listen fresh))) eq_refl).
Qed.

(** ** An answer that the stripper reduces to nothing *)

Lemma flushIfNeeded_empty_buffer (source : jsstring) (force : bool)
  (s : session) :
  buffer s = [] -> startedStreaming s = false ->
  flushIfNeeded source force s = s.
Proof.
  intros Hb Hs. unfold flushIfNeeded. rewrite Hb, Hs.
  destruct (blocked s); [reflexivity|]. cbn [negb].
  change (stripLeadingPhrases []) with (@nil char).
  change (trim []) with (@nil char). cbn [List.length Nat.leb Nat.ltb].
  now rewrite andb_false_r.
Qed.

Lemma docs_lines_quiet (source : jsstring) (ls : list line) :
  forall s : session,
    buffer s = [] -> startedStreaming s = false ->
    Forall strips_to_nothing ls ->
    docs_lines source ls s = s.
Proof.
  induction ls as [|l ls IH]; intros s Hb Hs Hq; cbn [docs_lines];
    [reflexivity|].
  inversion Hq as [|? ? Hl Hls]; subst.
  destruct (clientClosed s); [reflexivity|].
  destruct l as [|content|]; [reflexivity| |now apply IH].
  destruct (nonempty content); [|now apply IH].
  cbv zeta. proj. rewrite Hs. cbn [negb]. proj.
  rewrite Hb. cbn [app]. cbn [strips_to_nothing] in Hl. rewrite Hl.
  assert (E : set_buffer [] (set_buffer content s) = s).
  { destruct s. proj. now subst. }
  rewrite E, flushIfNeeded_empty_buffer by assumption.
  now apply IH.
Qed.

Lemma quiet_run_stays (source statusText : jsstring) (ins : list input) :
  Js.eqb source src_openai = false ->
  Forall quiet ins ->
  let c := streamModelResponse source true statusText ins in
  at_ c = Reading /\ buffer (st c) = [] /\ startedStreaming (st c) = false
  /\ clientClosed (st c) = false.
Proof.
  intros Ho. induction ins as [|i ins IH] using rev_ind; intros Hq; cbv zeta.
  - unfold streamModelResponse, run, start. cbn [fold_left negb]. rewrite Ho.
    repeat split.
  - apply Forall_app in Hq as (Hq & Hi). inversion Hi as [|? ? Hi' _]; subst.
    destruct (IH Hq) as (Hr & Hb & Hs & Hc).
    unfold streamModelResponse in *. rewrite run_app. cbn [run fold_left].
    fold (run source ins (start source true statusText)).
    destruct (run source ins (start source true statusText)) as [ph s].
    proj. subst ph.
    destruct i as [[]|[ls| |]]; cbn [quiet] in Hi'; try contradiction;
      unfold step; proj.
    + unfold deliver. destruct (flushTimer s);
        rewrite ?flushIfNeeded_empty_buffer by assumption; auto.
    + unfold deliver. destruct (startTimer s); auto.
      cbv zeta. proj. destruct (_ && _)%bool; proj; auto.
      rewrite flushIfNeeded_empty_buffer by (proj; assumption). proj. auto.
    + rewrite Ho, (@docs_lines_quiet source ls s Hb Hs Hi').
      unfold loop_test. rewrite Hc. proj. auto.
Qed.

(** X13: a document session whose upstream tokens are each reduced to
    nothing by the phrase stripper (the refusal sentence in one token, its
    opening words, white space, punctuation), with the client connected and
    whatever timers fire, ends with exactly the keep-alive comment, the
    fallback sentence and the terminal marker. *)
Theorem silent_answer_gets_fallback (statusText : jsstring)
  (ins : list input) :
  Forall quiet ins ->
  let c := streamModelResponse src_docs true statusText
             (ins ++ [Read RDone]) in
  at_ c = Returned
  /\ written (st c) = [Comment; Data src_docs fallback_sentence; Done].
Proof.
  intros Hq. cbv zeta.
  destruct (@quiet_run_stays src_docs statusText ins eq_refl Hq)
    as (Hr & Hb & Hs & Hc).
  pose proof (reached_inv src_docs true statusText ins) as (_ & H).
  rewrite Hr in H.
  unfold streamModelResponse in *. rewrite run_app. cbn [run fold_left].
  fold (run src_docs ins (start src_docs true statusText)).
  destruct (run src_docs ins (start src_docs true statusText)) as [ph s].
  proj. subst ph. unfold step. proj. split; [reflexivity|].
  destruct (finish_spec src_docs s) as (_ & _ & _ & _ & _ & _ & F).
  destruct (F H) as (_ & _ & G). apply G; auto.
  change (finish src_docs s) with (finally_outer src_docs s).
  unfold finally_outer. cbv zeta.
  destruct (clearTimers_same s) as (_ & B1 & _ & S1 & _).
  rewrite flushIfNeeded_empty_buffer by congruence.
  rewrite S1, Hs. cbn [negb andb].
  change (Js.eqb src_docs src_docs) with true. cbn [andb].
  destruct (terminate_spec
              (if negb (clientClosed (clearTimers s))
               then sendChunk src_docs fallback_sentence
                      (ensureHeaders (clearTimers s))
               else clearTimers s))
    as (_ & _ & _ & _ & _ & _ & _ & T & _).
  rewrite T. destruct (negb _); [|congruence].
  destruct (sendChunk_buffer src_docs fallback_sentence
              (ensureHeaders (clearTimers s))) as (_ & _ & ->).
  destruct (ensureHeaders_same (clearTimers s)) as (_ & _ & _ & -> & _).
  congruence.
Qed.

Lemma silent_answer_gets_fallback_witness :
  written
    (st (streamModelResponse src_docs true []
           ([Read (RChunk [LContent (str "I don't know ")]);
             Callback EvStartTimeout;
             Read (RChunk [LContent (str " ... ")])]
            ++ [Read RDone])))
  = [Comment; Data src_docs fallback_sentence; Done].
Proof.
  apply (@silent_answer_gets_fallback []
           [Read (RChunk [LContent (str "I don't know ")]);
            Callback EvStartTimeout;
            Read (RChunk [LContent (str " ... ")])]).
  repeat constructor.
Defined.

(** ** The wire format of the transcript *)

Lemma drop_while_idem (p : char -> bool) (s : jsstring) :
  drop_while p (drop_while p s) = drop_while p s.
Proof.
  induction s as [|c s IH]; cbn [drop_while]; [reflexivity|].
  destruct (p c) eqn:E; [exact IH|]. cbn [drop_while]. now rewrite E.
Qed.

Lemma drop_while_snoc (p : char -> bool) (l : jsstring) (h : char) :
  p h = false -> drop_while p (l ++ [h]) = drop_while p l ++ [h].
Proof.
  intros H. induction l as [|c l IH]; cbn [drop_while app].
  - now rewrite H.
  - destruct (p c); [exact IH|reflexivity].
Qed.

Lemma trim_idem (s : jsstring) : trim (trim s) = trim s.
Proof.
  unfold trim. destruct (drop_while is_space s) as [|h y] eqn:E;
    [reflexivity|].
  pose proof (@drop_while_head _ _ _ _ E) as Hh.
  cbn [rev]. rewrite (@drop_while_snoc is_space _ h Hh), rev_app_distr.
  cbn [rev app drop_while]. rewrite Hh. cbn [rev].
  rewrite rev_involutive, (@drop_while_snoc is_space _ h Hh), drop_while_idem.
  rewrite rev_app_distr. reflexivity.
Qed.

Lemma comments_app (a b : list sse) :
  comments (a ++ b) = comments a + comments b.
Proof. induction a as [|[] a IH]; cbn; rewrite ?IH; reflexivity. Qed.

Lemma fmt_same (source : jsstring) (s s' : session) :
  written s' = written s -> statusPingSent s' = statusPingSent s ->
  (headersSent s = true -> headersSent s' = true) ->
  (fmt source s -> fmt source s') /\ (opened s -> opened s').
Proof.
  intros W P H. unfold fmt, opened. rewrite W, P.
  assert (G : (exists rest, written s = Comment :: rest /\ comments rest = 0
                 /\ statusPingSent s = true /\ headersSent s = true) ->
              exists rest, written s = Comment :: rest /\ comments rest = 0
                 /\ statusPingSent s = true /\ headersSent s' = true).
  { intros (rest & A & B & C & D). exists rest. auto. }
  split; [|exact G]. intros (F & [E|O]); split; auto.
Qed.

Lemma opened_append (s s' : session) (w : list sse) :
  written s' = written s ++ w -> comments w = 0 ->
  statusPingSent s' = statusPingSent s ->
  (headersSent s = true -> headersSent s' = true) ->
  opened s -> opened s'.
Proof.
  intros W C P H (rest & A & B & D & E). exists (rest ++ w).
  rewrite W, A, comments_app, B, C, P. auto.
Qed.

Lemma sendChunk_flags (source chunk : jsstring) (s : session) :
  statusPingSent (sendChunk source chunk s)
  = (if (negb (nonempty chunk) || blocked s)%bool then statusPingSent s
     else true)
  /\ headersSent (sendChunk source chunk s)
     = (if (negb (nonempty chunk) || blocked s)%bool then headersSent s
        else true).
Proof.
  unfold sendChunk, sendPing, safeWrite, ensureHeaders, blocked.
  destruct (nonempty chunk); brute; split; reflexivity.
Qed.

Lemma nonempty_not_nil (x : jsstring) : nonempty x = true -> x <> [].
Proof. destruct x; [discriminate|congruence]. Qed.

Lemma sendChunk_fmt (source chunk : jsstring) (s : session) :
  (Js.eqb source src_openai = false -> trim chunk = chunk) ->
  (fmt source s -> fmt source (sendChunk source chunk s))
  /\ (opened s -> opened (sendChunk source chunk s))
  /\ (fmt source s -> nonempty chunk = true -> blocked s = false ->
      opened (sendChunk source chunk s)).
Proof.
  intros Ht.
  pose proof (sendChunk_written source chunk s) as W.
  destruct (sendChunk_flags source chunk s) as (P & H).
  destruct (negb (nonempty chunk) || blocked s)%bool eqn:E.
  - destruct (@fmt_same source s (sendChunk source chunk s) W P) as (A & B);
      [congruence|].
    splits; auto. intros _ Hn Hk. rewrite Hn, Hk in E. discriminate.
  - apply orb_false_iff in E as (En & Ek). apply negb_false_iff in En.
    assert (Hd : data_ok source (Data source chunk)).
    { cbn. splits; auto. now apply nonempty_not_nil. }
    assert (Ho : fmt source s -> opened (sendChunk source chunk s)).
    { intros (F & [(E0 & P0)|O]).
      - rewrite E0, P0 in W. cbn [app] in W.
        exists [Data source chunk]. auto.
      - destruct O as (rest & A & B & C & D).
        rewrite C in W. cbn [app] in W.
        exists (rest ++ [Data source chunk]).
        rewrite W, A, comments_app, B. auto. }
    assert (Hf : fmt source s ->
                 Forall (data_ok source) (written (sendChunk source chunk s))).
    { intros (F & _). rewrite W. apply Forall_app. split; [exact F|].
      destruct (statusPingSent s); repeat constructor; auto;
        now apply nonempty_not_nil. }
    splits.
    + intros F. split; [now apply Hf|right; now apply Ho].
    + intros (rest & A & B & C & D).
      rewrite C in W. cbn [app] in W.
      exists (rest ++ [Data source chunk]).
      rewrite W, A, comments_app, B. auto.
    + intros F _ _. now apply Ho.
Qed.

Lemma keeps_fmt (source : jsstring) (s s' : session) :
  keeps s s' ->
  (fmt source s -> fmt source s') /\ (opened s -> opened s').
Proof. intros (W & P & H). now apply fmt_same. Qed.

Lemma keeps_trans (a b c : session) : keeps a b -> keeps b c -> keeps a c.
Proof. unfold keeps. intros (A1 & A2 & A3) (B1 & B2 & B3). splits; try congruence; auto. Qed.

Lemma keeps_refl (s : session) : keeps s s.
Proof. unfold keeps. auto. Qed.

Lemma keeps_primitives (s : session) :
  keeps s (startPeriodicFlush s) /\ keeps s (clearTimers s)
  /\ keeps s (ensureHeaders s) /\ keeps s (onClientClose s).
Proof.
  unfold keeps, startPeriodicFlush, clearTimers, ensureHeaders, onClientClose.
  destruct s. proj. destruct startTimer0; bools; cbn; splits; auto.
Qed.

Lemma terminate_flags (s : session) :
  statusPingSent (terminate s) = statusPingSent s
  /\ headersSent (terminate s) = headersSent s.
Proof. unfold terminate, safeWrite, blocked. brute; split; reflexivity. Qed.

Lemma startPeriodicFlush_fmt (source : jsstring) (s : session) :
  (fmt source s -> fmt source (startPeriodicFlush s))
  /\ (opened s -> opened (startPeriodicFlush s)).
Proof. apply keeps_fmt, keeps_primitives. Qed.

Lemma set_lastSentLen_fmt (source : jsstring) (n : nat) (s : session) :
  (fmt source s -> fmt source (set_lastSentLen n s))
  /\ (opened s -> opened (set_lastSentLen n s)).
Proof. apply keeps_fmt. unfold keeps. proj. auto. Qed.

Lemma begin_state_fmt (source stripped : jsstring) (s : session) :
  (fmt source s ->
   fmt source (set_buffer stripped (set_startedStreaming true s)))
  /\ (opened s -> opened (set_buffer stripped (set_startedStreaming true s))).
Proof. apply keeps_fmt. unfold keeps. proj. auto. Qed.

Lemma beginStreaming_fmt (source stripped : jsstring) (s : session) :
  let s' := beginStreaming source stripped s in
  (fmt source s -> fmt source s')
  /\ (opened s -> opened s')
  /\ (fmt source s -> blocked s = false -> lastSentLen s = 0 ->
      nonempty (trim stripped) = true -> opened s').
Proof.
  unfold beginStreaming. cbv zeta. proj.
  destruct (begin_state_fmt source stripped s) as (F0 & O0).
  destruct (@sendChunk_fmt source
              (trim (slice_from (lastSentLen s) stripped))
              (set_buffer stripped (set_startedStreaming true s)))
    as (F1 & O1 & N1).
  { intros _. apply trim_idem. }
  set (toSend := trim (slice_from (lastSentLen s) stripped)) in *.
  set (s0 := set_buffer stripped (set_startedStreaming true s)) in *.
  splits.
  - intros F. apply (proj1 (startPeriodicFlush_fmt source _)).
    destruct (nonempty toSend);
      [apply (proj1 (set_lastSentLen_fmt source _ _))|]; auto.
  - intros O. apply (proj2 (startPeriodicFlush_fmt source _)).
    destruct (nonempty toSend);
      [apply (proj2 (set_lastSentLen_fmt source _ _))|]; auto.
  - intros F Hk Hl Hn. apply (proj2 (startPeriodicFlush_fmt source _)).
    assert (Hn' : nonempty toSend = true).
    { subst toSend. rewrite Hl. exact Hn. }
    rewrite Hn'. apply (proj2 (set_lastSentLen_fmt source _ _)).
    apply N1; auto.
Qed.

Lemma forwardIncrement_fmt (source : jsstring) (s : session) :
  (fmt source s -> fmt source (forwardIncrement source s))
  /\ (opened s -> opened (forwardIncrement source s)).
Proof.
  unfold forwardIncrement. cbv zeta.
  set (chunk := trim (stripLeadingPhrases _)).
  destruct (@sendChunk_fmt source chunk s) as (F1 & O1 & _).
  { intros _. subst chunk. apply trim_idem. }
  assert (K : forall x : session,
             keeps x (set_lastSentLen (List.length (buffer x)) x))
    by (intros x; unfold keeps; proj; auto).
  destruct (nonempty chunk).
  - destruct (keeps_fmt source (K (sendChunk source chunk s))) as (F & O).
    split; auto.
  - exact (keeps_fmt source (K s)).
Qed.

Lemma leb_nonempty (x : jsstring) (force : bool) :
  (Nat.leb STREAM_START_THRESHOLD (List.length x)
   || force && Nat.ltb 0 (List.length x))%bool = true ->
  nonempty x = true.
Proof.
  destruct x; [|reflexivity]. cbn. now rewrite andb_false_r.
Qed.

Lemma flushIfNeeded_fmt (source : jsstring) (force : bool) (s : session) :
  let s' := flushIfNeeded source force s in
  (fmt source s -> fmt source s')
  /\ (opened s -> opened s')
  /\ (fmt source s -> buf_ok s -> (startedStreaming s = true -> opened s) ->
      startedStreaming s' = true -> opened s').
Proof.
  unfold flushIfNeeded. cbv zeta.
  destruct (blocked s) eqn:Hk; [splits; auto|].
  destruct (startedStreaming s) eqn:Hs; cbn [negb].
  - destruct (forwardIncrement_fmt source s) as (F & O).
    destruct (_ || _)%bool; splits; auto.
  - destruct (_ || _)%bool eqn:Ec; [|splits; auto; congruence].
    destruct (beginStreaming_fmt source (stripLeadingPhrases (buffer s)) s)
      as (F & O & N).
    splits; auto. intros Hf (_ & Hb) _ _.
    apply N; auto. eapply leb_nonempty; eassumption.
Qed.

Lemma docs_lines_fmt (source : jsstring) (ls : list line) :
  forall s : session,
    buf_ok s -> reading_fmt source s ->
    reading_fmt source (docs_lines source ls s).
Proof.
  induction ls as [|l ls IH]; intros s Hb R; cbn [docs_lines]; cbv zeta;
    [exact R|].
  destruct (clientClosed s); [exact R|].
  destruct l as [|content|]; [exact R| |now apply IH].
  destruct (nonempty content); [|now apply IH].
  set (s1 := if negb (startedStreaming (set_buffer (buffer s ++ content) s))
             then set_buffer
                    (stripLeadingPhrases
                       (buffer (set_buffer (buffer s ++ content) s)))
                    (set_buffer (buffer s ++ content) s)
             else set_buffer (buffer s ++ content) s).
  assert (H1 : keeps s s1 /\ startedStreaming s1 = startedStreaming s
               /\ buf_ok s1).
  { subst s1. proj. destruct Hb as (Hb0 & Hb1). unfold keeps, buf_ok.
    destruct (startedStreaming s) eqn:Es; cbn [negb]; proj; rewrite ?Es;
      splits; auto; try discriminate.
    - rewrite length_app. lia.
    - rewrite (Hb1 eq_refl). lia. }
  destruct H1 as (K1 & S1 & B1).
  destruct (keeps_fmt source K1) as (F1 & O1).
  destruct (flushIfNeeded_fmt source false s1) as (F2 & O2 & N2).
  destruct (flushIfNeeded_spec source false s1) as (_ & _ & _ & B2 & _).
  destruct R as (Rf & Rs & Rd).
  apply IH; [apply (B2 B1)|].
  unfold reading_fmt. splits.
  - auto.
  - apply N2; auto. rewrite S1. auto.
  - destruct Rd as [Rd|Rd]; auto.
Qed.

Lemma safeWrite_opened (d : sse) (s : session) :
  comments [d] = 0 -> opened s -> opened (safeWrite d s).
Proof.
  intros Hd (rest & A & B & C & D). unfold safeWrite.
  destruct (blocked s); [exists rest; auto|].
  exists (rest ++ [d]). proj. rewrite A, comments_app, B, Hd. auto.
Qed.

Lemma openai_lines_fmt (source : jsstring) (ls : list line) :
  Js.eqb source src_openai = true ->
  forall s : session,
    fmt source s -> opened s ->
    fmt source (openai_lines source ls s)
    /\ opened (openai_lines source ls s).
Proof.
  intros Ho. induction ls as [|l ls IH]; intros s F O; cbn [openai_lines];
    [auto|].
  destruct (clientClosed s); [auto|].
  destruct l as [|content|]; [auto| |now apply IH].
  destruct (nonempty content) eqn:En; cbn [andb]; [|now apply IH].
  destruct (_ && _)%bool; [|now apply IH].
  destruct (safeWrite_spec (Data source content) s)
    as (_ & _ & _ & _ & _ & W).
  pose proof (@safeWrite_opened (Data source content) s eq_refl O) as O'.
  apply IH; [|exact O'].
  split; [|right; exact O'].
  destruct F as (Fd & _). rewrite W. destruct (blocked s); [exact Fd|].
  apply Forall_app. split; [exact Fd|].
  constructor; [|constructor]. unfold data_ok.
  splits; [reflexivity|now apply nonempty_not_nil|congruence].
Qed.

Lemma terminate_fmt (source : jsstring) (s : session) :
  fmt source s -> (blocked s = false -> opened s) ->
  fmt source (terminate s) /\ (opened s -> opened (terminate s)).
Proof.
  intros F Ho.
  destruct (terminate_spec s) as (_ & _ & _ & _ & _ & _ & _ & _ & W).
  destruct (terminate_flags s) as (P & H).
  assert (O : opened s -> opened (terminate s)).
  { intros (rest & A & B & C & D). destruct (blocked s).
    - exists rest. rewrite W, P, H. auto.
    - exists (rest ++ [Done]). rewrite W, P, H, A, comments_app, B. auto. }
  split; [|exact O].
  destruct (blocked s) eqn:Hk.
  - apply (proj1 (@keeps_fmt source s (terminate s)
                    (conj W (conj P (fun E => eq_trans H E)))) F).
  - destruct F as (Fd & _). split; [|right; auto].
    rewrite W. apply Forall_app. split; [exact Fd|]. repeat constructor.
Qed.

Lemma fallback_is_trimmed : trim fallback_sentence = fallback_sentence.
Proof. vm_compute. reflexivity. Qed.

Lemma finally_outer_fmt (source : jsstring) (s : session) :
  buf_ok s -> reading_fmt source s ->
  fmt source (finally_outer source s)
  /\ (opened s -> opened (finally_outer source s)).
Proof.
  intros Hb (F & Hs & Hd). unfold finally_outer. cbv zeta.
  set (s1 := clearTimers s).
  set (s2 := flushIfNeeded source true s1).
  destruct (keeps_primitives s) as (_ & K1 & _). fold s1 in K1.
  destruct (keeps_fmt source K1) as (F1 & O1).
  destruct (clearTimers_same s) as (C1 & B1 & L1 & S1 & _).
  fold s1 in C1, B1, L1, S1.
  assert (Hb1 : buf_ok s1) by (unfold buf_ok in *; now rewrite B1, L1, S1).
  destruct (flushIfNeeded_fmt source true s1) as (F2 & O2 & N2).
  fold s2 in F2, O2, N2.
  destruct (flushIfNeeded_spec source true s1) as (C2 & _). fold s2 in C2.
  destruct (keeps_primitives s2) as (_ & _ & Ke & _).
  destruct (keeps_fmt source Ke) as (Fe & Oe).
  destruct (ensureHeaders_same s2) as (Ce & _).
  destruct (@sendChunk_fmt source fallback_sentence (ensureHeaders s2)
              (fun _ => fallback_is_trimmed)) as (Fs & Os & Ns).
  pose proof (sendChunk_control source fallback_sentence (ensureHeaders s2))
    as Cs.
  assert (Fm2 : fmt source s2) by auto.
  assert (St2 : startedStreaming s2 = true -> opened s2).
  { apply N2; auto. rewrite S1. auto. }
  set (cond := (negb (startedStreaming s2) && Js.eqb source src_docs
                && negb (clientClosed s2))%bool).
  set (s3 := if cond then sendChunk source fallback_sentence (ensureHeaders s2)
             else s2).
  assert (F3 : fmt source s3) by (subst s3; destruct cond; auto).
  assert (O3 : opened s2 -> opened s3) by (subst s3; destruct cond; auto).
  assert (K3 : blocked s3 = blocked s2).
  { subst s3. destruct cond; [|reflexivity].
    now rewrite (same_control_blocked Cs), (same_control_blocked Ce). }
  assert (N3 : blocked s3 = false -> opened s3).
  { intros Hk. rewrite K3 in Hk.
    destruct (startedStreaming s2) eqn:E2; [auto|].
    destruct Hd as [->|Hd]; [|auto].
    assert (Hc : clientClosed s2 = false).
    { unfold blocked in Hk. rewrite !orb_false_iff in Hk. tauto. }
    subst s3 cond. rewrite ?E2, Hc.
    change (Js.eqb src_docs src_docs) with true. cbn [negb andb].
    apply Ns; auto. now rewrite (same_control_blocked Ce). }
  destruct (terminate_fmt F3 N3) as (Ft & Ot).
  split; [exact Ft|auto].
Qed.

Lemma finish_fmt (source : jsstring) (s : session) :
  buf_ok s -> reading_fmt source s ->
  fmt source (finish source s).
Proof.
  intros Hb R. unfold finish.
  destruct (Js.eqb source src_openai) eqn:Eo;
    [|now apply finally_outer_fmt].
  destruct R as (F & Hs & Hd).
  assert (O : opened s).
  { destruct Hd as [->|O]; [discriminate Eo|exact O]. }
  unfold finally_openai.
  destruct (keeps_primitives s) as (_ & K1 & _).
  destruct (keeps_fmt source K1) as (F1 & O1).
  destruct (@terminate_fmt source (clearTimers s) (F1 F) (fun _ => O1 O))
    as (Ft & Ot).
  destruct (clearTimers_same s) as (_ & B1 & L1 & S1 & _).
  destruct (terminate_spec (clearTimers s))
    as (_ & _ & _ & _ & _ & T6 & T7 & T8 & _).
  apply finally_outer_fmt.
  - unfold buf_ok in *. now rewrite T6, T7, T8, B1, L1, S1.
  - unfold reading_fmt. splits; auto.
Qed.

Lemma deliver_fmt (source : jsstring) (e : event) (s : session) :
  buf_ok s ->
  (fmt source s -> fmt source (deliver source e s))
  /\ (reading_fmt source s -> reading_fmt source (deliver source e s)).
Proof.
  intros Hb.
  assert (Hkeep : forall s' : session,
            keeps s s' -> startedStreaming s' = startedStreaming s ->
            (fmt source s -> fmt source s')
            /\ (reading_fmt source s -> reading_fmt source s')).
  { intros s' K S. destruct (keeps_fmt source K) as (F & O).
    split; [exact F|]. unfold reading_fmt. rewrite S.
    intros (A & B & [C|C]); splits; auto. }
  assert (Hflush : forall s0 : session,
            buf_ok s0 ->
            (fmt source s0 -> fmt source (flushIfNeeded source true s0))
            /\ (reading_fmt source s0 ->
                reading_fmt source (flushIfNeeded source true s0))).
  { intros s0 Hb0.
    destruct (flushIfNeeded_fmt source true s0) as (F & O & N).
    split; [exact F|]. unfold reading_fmt.
    intros (A & B & [C|C]); splits; auto. }
  destruct e; cbn [deliver].
  - destruct (closeListener s);
      [apply Hkeep; [apply keeps_primitives|reflexivity]
      |apply Hkeep; [apply keeps_refl|reflexivity]].
  - destruct (errorListener s);
      [apply Hkeep; [apply keeps_primitives|reflexivity]
      |apply Hkeep; [apply keeps_refl|reflexivity]].
  - destruct (flushTimer s);
      [now apply Hflush|apply Hkeep; [apply keeps_refl|reflexivity]].
  - destruct (startTimer s);
      try (apply Hkeep; [apply keeps_refl|reflexivity]).
    cbv zeta.
    destruct (Hkeep (set_startTimer Fired s)) as (F0 & R0);
      [unfold keeps; proj; auto|reflexivity|].
    destruct (Hflush (set_startTimer Fired s)) as (F1 & R1);
      [unfold buf_ok in *; now proj|].
    destruct (_ && _)%bool; split; auto.
Qed.

Lemma step_fmt (source : jsstring) (ok : bool) (i : input) (c : machine) :
  Inv source ok c ->
  fmt source (st c) /\ (at_ c = Reading -> reading_fmt source (st c)) ->
  fmt source (st (step source i c))
  /\ (at_ (step source i c) = Reading ->
      reading_fmt source (st (step source i c))).
Proof.
  destruct c as [ph s]. unfold Inv. proj. intros (Hb & _) (F & R).
  assert (Hloop : forall s' : session,
            buf_ok s' -> reading_fmt source s' ->
            fmt source (st (loop_test source s'))
            /\ (at_ (loop_test source s') = Reading ->
                reading_fmt source (st (loop_test source s')))).
  { intros s' Hb' R'. unfold loop_test. destruct (clientClosed s'); proj.
    - split; [now apply finish_fmt|discriminate].
    - split; [apply R'|auto]. }
  destruct i as [e|r]; unfold step; proj.
  - destruct (deliver_fmt source e Hb) as (Fd & Rd).
    destruct ph; proj; split; auto.
  - destruct ph; [|split; auto].
    specialize (R eq_refl).
    destruct r as [ls| |];
      try (proj; split; [now apply finish_fmt|discriminate]).
    destruct (Js.eqb source src_openai) eqn:Eo.
    + destruct (openai_lines_spec source ls s) as (_ & _ & B & L & S & _).
      apply Hloop; [unfold buf_ok in *; now rewrite B, L, S|].
      destruct R as (Rf & Rs & Rd).
      assert (O : opened s) by (destruct Rd as [->|O]; [discriminate Eo|auto]).
      destruct (@openai_lines_fmt source ls Eo s Rf O) as (F' & O').
      unfold reading_fmt. splits; auto.
    + destruct (docs_lines_spec source ls s) as (_ & _ & _ & B).
      apply Hloop; [apply (B Hb)|now apply docs_lines_fmt].
Qed.

Lemma reached_fmt (source statusText : jsstring) (ins : list input) :
  source = src_docs \/ source = src_openai ->
  let c := streamModelResponse source true statusText ins in
  fmt source (st c) /\ (at_ c = Reading -> reading_fmt source (st c)).
Proof.
  intros Hsrc. induction ins as [|i ins IH] using rev_ind; cbv zeta.
  - unfold streamModelResponse, run. cbn [fold_left].
    destruct Hsrc as [->| ->].
    + change (start src_docs true statusText)
        with {| at_ := Reading; st := set_startTimer Pending (listen fresh) |}.
      proj.
      assert (F : fmt src_docs (set_startTimer Pending (listen fresh))).
      { split; [constructor|left; split; reflexivity]. }
      split; [exact F|]. intros _. unfold reading_fmt. splits; auto.
      discriminate.
    + change (start src_openai true statusText)
        with {| at_ := Reading;
                st := sendPing (ensureHeaders (listen fresh)) |}.
      proj.
      assert (O : opened (sendPing (ensureHeaders (listen fresh)))).
      { exists []. repeat split. }
      assert (F : fmt src_openai (sendPing (ensureHeaders (listen fresh)))).
      { split; [repeat constructor|right; exact O]. }
      split; [exact F|]. intros _. unfold reading_fmt. splits; auto.
  - unfold streamModelResponse in *. rewrite run_app. cbn [run fold_left].
    fold (run source ins (start source true statusText)).
    apply (@step_fmt source true); [apply reached_inv|exact IH].
Qed.

(** X14: in a session of source [docs] or [openai] whose upstream answered,
    whatever happens, the transcript is empty or begins with the keep-alive
    comment, which is its only comment; and when anything has been written
    the event-stream headers had been set. *)
Theorem keepalive_opens_transcript (source statusText : jsstring)
  (ins : list input) :
  source = src_docs \/ source = src_openai ->
  let s := st (streamModelResponse source true statusText ins) in
  written s = []
  \/ exists rest,
       written s = Comment :: rest /\ comments rest = 0
       /\ headersSent s = true.
Proof.
  intros Hsrc. cbv zeta.
  destruct (@reached_fmt source statusText ins Hsrc) as ((_ & [(E & _)|O]) & _).
  - now left.
  - right. destruct O as (rest & A & B & _ & D). eauto.
Qed.

Lemma keepalive_opens_transcript_witness :
  exists rest,
    written (st (streamModelResponse src_openai true []
                   [Read (RChunk [LContent (str "Hi there")])]))
    = Comment :: rest.
Proof.
  destruct (@keepalive_opens_transcript src_openai []
              [Read (RChunk [LContent (str "Hi there")])]
              (or_intror eq_refl)) as [E|(rest & E & _)].
  - vm_compute in E. discriminate E.
  - exists rest. exact E.
Defined.

(** X15: in a session of source [docs] or [openai] whose upstream answered,
    every content event written names the session's source and carries a
    non-empty content; in a [docs] session the content has no white space at
    its start or end, so that increments reach the client without the blanks
    that separated them. *)
Theorem content_events_well_formed (source statusText : jsstring)
  (ins : list input) :
  source = src_docs \/ source = src_openai ->
  forall src content : jsstring,
    In (Data src content)
      (written (st (streamModelResponse source true statusText ins))) ->
    src = source /\ content <> []
    /\ (source = src_docs -> trim content = content).
Proof.
  intros Hsrc src content Hin.
  destruct (@reached_fmt source statusText ins Hsrc) as ((F & _) & _).
  rewrite Forall_forall in F. specialize (F _ Hin). cbn [data_ok] in F.
  destruct F as (A & B & C). splits; auto.
  intros ->. now apply C.
Qed.

Lemma content_events_well_formed_witness :
  trim (str "world") = str "world".
Proof.
  apply (@content_events_well_formed src_docs []
           [Read (RChunk [LContent (str "Hello")]); Callback EvStartTimeout;
            Read (RChunk [LContent (str " world ")]); Read RDone]
           (or_introl eq_refl) src_docs (str "world")).
  - vm_compute. auto.
  - reflexivity.
Defined.

(** ** The first and the last flush of a document session *)

Lemma beginStreaming_first (source stripped : jsstring) (s : session) :
  blocked s = false -> lastSentLen s = 0 ->
  nonempty (trim stripped) = true ->
  let s' := beginStreaming source stripped s in
  written s'
  = written s ++ (if statusPingSent s then [] else [Comment])
      ++ [Data source (trim stripped)]
  /\ buffer s' = stripped
  /\ lastSentLen s' = List.length stripped
  /\ startedStreaming s' = true.
Proof.
  intros Hk Hl Hn. unfold beginStreaming. cbv zeta. proj.
  rewrite Hl. unfold slice_from. cbn [skipn]. rewrite Hn.
  set (s0 := set_buffer stripped (set_startedStreaming true s)).
  match goal with |- context [startPeriodicFlush ?x] =>
    destruct (startPeriodicFlush_same x) as (_ & B & L & S & W & _)
  end.
  rewrite B, L, S, W. proj.
  destruct (sendChunk_buffer source (trim stripped) s0) as (Bc & _ & Sc).
  rewrite Bc, Sc, sendChunk_written, Hn. subst s0. proj.
  unfold blocked in *. proj. rewrite Hk. cbn [negb orb]. auto.
Qed.



Lemma flushIfNeeded_forced_complete (source : jsstring) (s : session) :
  blocked s = false -> buf_ok s ->
  startedStreaming (flushIfNeeded source true s) = true ->
  lastSentLen (flushIfNeeded source true s)
  = List.length (buffer (flushIfNeeded source true s)).
Proof.
  intros Hk (_ & Hl). unfold flushIfNeeded. rewrite Hk. cbv zeta.
  destruct (startedStreaming s) eqn:Hs; cbn [negb].
  - rewrite orb_true_r.
    destruct (forwardIncrement_spec source s) as (_ & B & _ & L & _).
    now rewrite B, L.
  - destruct (_ || _)%bool eqn:Ec; [|congruence]. intros _.
    destruct (@beginStreaming_first source (stripLeadingPhrases (buffer s)) s
                Hk (Hl eq_refl) (leb_nonempty _ _ Ec)) as (_ & B & L & _).
    now rewrite B, L.
Qed.

(** X17: when the upstream of a document session ends (or its read fails)
    with the client connected, the final forced flush leaves nothing
    pending: if the session has streamed at all, [lastSentLen] equals the
    length of the buffer when the handler returns. *)
Theorem final_flush_leaves_nothing (source statusText : jsstring)
  (ins : list input) (r : read_result) :
  let c := streamModelResponse source true statusText ins in
  let c' := step source (Read r) c in
  Js.eqb source src_openai = false ->
  r = RDone \/ r = RThrow ->
  at_ c = Reading -> clientClosed (st c) = false ->
  startedStreaming (st c') = true ->
  at_ c' = Returned
  /\ lastSentLen (st c') = List.length (buffer (st c')).
Proof.
  cbv zeta. intros Ho Hr Hrd Hc.
  pose proof (reached_inv source true statusText ins) as (Hb & R).
  rewrite Hrd in R.
  destruct (streamModelResponse source true statusText ins) as [ph s].
  proj. subst ph.
  assert (E : step source (Read r) {| at_ := Reading; st := s |}
              = {| at_ := Returned; st := finally_outer source s |}).
  { unfold step. proj. unfold finish. rewrite Ho.
    destruct Hr as [-> | ->]; reflexivity. }
  rewrite E. proj. intros Hs. split; [reflexivity|].
  unfold finally_outer in *. cbv zeta in *.
  set (s1 := clearTimers s) in *.
  set (s2 := flushIfNeeded source true s1) in *.
  destruct (clearTimers_same s) as (C1 & B1 & L1 & S1 & _).
  fold s1 in C1, B1, L1, S1.
  assert (K1 : blocked s1 = false).
  { rewrite (same_control_blocked C1). now apply (reading_open R). }
  assert (Hb1 : buf_ok s1) by (unfold buf_ok in *; now rewrite B1, L1, S1).
  pose proof (@flushIfNeeded_forced_complete source s1 K1 Hb1) as Hf.
  fold s2 in Hf.
  match goal with
  | H : startedStreaming (terminate ?x) = true |- _ =>
      destruct (terminate_spec x) as (_ & _ & _ & _ & _ & T6 & T7 & T8 & _);
      rewrite T8 in H; rewrite T6, T7
  end.
  destruct (sendChunk_buffer source fallback_sentence (ensureHeaders s2))
    as (Bs & Ls & Ss).
  destruct (ensureHeaders_same s2) as (_ & Be & Le & Se & _).
  destruct (startedStreaming s2) eqn:E2.
  - cbn [negb andb] in *. now apply Hf.
  - cbn [negb andb] in *. destruct (_ && _)%bool; congruence.
Qed.

Lemma final_flush_leaves_nothing_witness :
  let c := streamModelResponse src_docs true []
             [Read (RChunk [LContent (str "Paris is")]);
              Callback EvStartTimeout;
              Read (RChunk [LContent (str " the")])] in
  lastSentLen (st (step src_docs (Read RDone) c))
  = List.length (buffer (st (step src_docs (Read RDone) c))).
Proof.
  cbv zeta.
  apply (@final_flush_leaves_nothing src_docs []
           [Read (RChunk [LContent (str "Paris is")]);
            Callback EvStartTimeout;
            Read (RChunk [LContent (str " the")])] RDone eq_refl
           (or_introl eq_refl) eq_refl eq_refl eq_refl).
Defined.

(** ** Lines of a chunk *)

Import Lines Passthrough.

Lemma split_nl_go_app (a b : jsstring) :
  forall cur : jsstring,
    split_nl_go cur (a ++ 10%N :: b) = split_nl_go cur a ++ split_nl b.
Proof.
  induction a as [|c a IH]; intros cur; cbn [app split_nl_go].
  - reflexivity.
  - destruct (N.eqb c 10); cbn [app]; now rewrite IH.
Qed.

Lemma split_nl_app (a b : jsstring) :
  split_nl (a ++ 10%N :: b) = split_nl a ++ split_nl b.
Proof. apply split_nl_go_app. Qed.

Lemma startsWith_app (prefix rest : jsstring) :
  startsWith prefix (prefix ++ rest) = true.
Proof.
  induction prefix as [|p prefix IH]; cbn [startsWith app]; [reflexivity|].
  now rewrite N.eqb_refl, IH.
Qed.

Lemma startsWith_spec (prefix s : jsstring) :
  startsWith prefix s = true -> exists rest, s = prefix ++ rest.
Proof.
  revert s. induction prefix as [|p prefix IH]; intros s; cbn [startsWith].
  - exists s. reflexivity.
  - destruct s as [|c s]; [discriminate|].
    rewrite andb_true_iff, N.eqb_eq. intros (-> & H).
    destruct (IH _ H) as (rest & ->). now exists rest.
Qed.

(** X18: the decoding of an upstream chunk in [streamModelResponse] works
    line by line: a chunk made of two texts joined by a line feed decodes to
    the lines of the first followed by the lines of the second, and a text
    without any line that begins (after trimming) with [data: ] decodes to
    no line. *)
Theorem decode_chunk_by_line (parse : jsstring -> option jsstring)
  (a b : jsstring) :
  decode_chunk parse (a ++ 10%N :: b)
  = decode_chunk parse a ++ decode_chunk parse b
  /\ (Forall (fun line => startsWith (str "data: ") (trim line) = false)
        (split_nl a) ->
      decode_chunk parse a = []).
Proof.
  unfold decode_chunk. split.
  - now rewrite split_nl_app, filter_app, map_app.
  - intros H. induction H as [|l ls Hl _ IH]; cbn [List.filter List.map];
      [reflexivity|].
    now rewrite Hl.
Qed.

Lemma decode_chunk_by_line_witness :
  decode_chunk (fun _ => None) (str ": OPENROUTER PROCESSING") = [].
Proof.
  apply (decode_chunk_by_line (fun _ => None)
           (str ": OPENROUTER PROCESSING") []).
  vm_compute. repeat constructor.
Defined.

Lemma relay_app (a b : jsstring) :
  relay (a ++ 10%N :: b) = relay a ++ relay b.
Proof. unfold relay. now rewrite split_nl_app, map_app, !filter_app. Qed.

(** X19: what the pass-through endpoint relays from a chunk are its lines,
    trimmed, that begin with [data:], in their order; each is free of white
    space at both ends; and a chunk made of two texts joined by a line feed
    relays what the first relays followed by what the second relays. *)
Theorem relay_by_line (a b : jsstring) :
  relay (a ++ 10%N :: b) = relay a ++ relay b
  /\ Forall (fun l => trim l = l /\ exists rest, l = str "data:" ++ rest)
       (relay a).
Proof.
  split.
  - apply relay_app.
  - unfold relay. apply Forall_forall. intros l Hl.
    apply filter_In in Hl as (Hl & Hs). apply filter_In in Hl as (Hl & _).
    apply in_map_iff in Hl as (x & <- & _).
    split; [apply trim_idem|now apply startsWith_spec].
Qed.

Lemma on_events_data (texts : list jsstring) :
  forall r : response,
    List.fold_left (fun r e => on_event e r) (List.map BData texts) r
    = {| sent := sent r ++ List.map Line (flat_map relay texts);
         finished := finished r |}.
Proof.
  induction texts as [|t texts IH]; intros r; cbn [List.map fold_left flat_map].
  - rewrite app_nil_r. now destruct r.
  - rewrite IH. cbn [on_event sent finished].
    now rewrite map_app, <- app_assoc.
Qed.

(** X20: when the upstream of the pass-through endpoint answers and its
    body ends normally, the client receives the relayed lines of every chunk
    in order, then the endpoint's own terminator, and the response is ended.
    An upstream that closes its stream with the line [data: [DONE]] thus has
    that line relayed and the terminator appended after it: the same
    characters twice. *)
Theorem chatCompletions_relays_then_terminates (text : jsstring)
  (texts : list jsstring) (last : jsstring) :
  let r := chatCompletions true text (List.map BData texts ++ [BEnd]) in
  sent r = List.map Line (flat_map relay texts) ++ [Terminator]
  /\ finished r = true
  /\ let r' := chatCompletions true text
                 (List.map BData
                    (texts ++ [last ++ 10%N :: str "data: [DONE]"])
                  ++ [BEnd]) in
     exists before,
       sent r' = before ++ [Line (str "data: [DONE]"); Terminator]
       /\ wire (Line (str "data: [DONE]")) = wire Terminator.
Proof.
  cbv zeta. unfold chatCompletions. cbn [negb].
  rewrite !fold_left_app, !on_events_data. cbn [fold_left on_event sent finished app].
  splits; try reflexivity.
  rewrite flat_map_app. cbn [flat_map]. rewrite app_nil_r.
  rewrite relay_app.
  change (relay (str "data: [DONE]")) with [str "data: [DONE]"].
  rewrite !map_app. cbn [List.map].
  rewrite !app_assoc.
  rewrite <- (app_assoc _ [Line (str "data: [DONE]")] [Terminator]).
  cbn [app]. eexists. split; reflexivity.
Qed.

(** ** The payload of a line *)

Lemma drop_while_spaces (ws rest : jsstring) :
  Forall (fun c => is_space c = true) ws ->
  drop_while is_space (ws ++ rest) = drop_while is_space rest.
Proof.
  induction 1 as [|c ws Hc _ IH]; cbn [app drop_while]; [reflexivity|].
  now rewrite Hc.
Qed.

Lemma drop_while_nil_Forall (p : char -> bool) (l : jsstring) :
  drop_while p l = [] -> Forall (fun c => p c = true) l.
Proof.
  induction l as [|c l IH]; cbn [drop_while]; [constructor|].
  destruct (p c) eqn:E; [|discriminate]. intros H. constructor; auto.
Qed.

Lemma Forall_drop_while_nil (p : char -> bool) (l : jsstring) :
  Forall (fun c => p c = true) l -> drop_while p l = [].
Proof.
  induction 1 as [|c l Hc _ IH]; cbn [drop_while]; [reflexivity|].
  now rewrite Hc.
Qed.

Lemma drop_while_app_keep (p : char -> bool) (a b : jsstring) :
  drop_while p a <> [] -> drop_while p (a ++ b) = drop_while p a ++ b.
Proof.
  induction a as [|c a IH]; cbn [drop_while app]; [congruence|].
  destruct (p c); [exact IH|reflexivity].
Qed.

Lemma space_not_d (c : char) : is_space c = true -> N.eqb 100 c = false.
Proof.
  intros H. destruct (N.eqb_spec 100 c) as [<-|]; [discriminate|reflexivity].
Qed.

Lemma remove_first_after_spaces (ws payload : jsstring) :
  Forall (fun c => is_space c = true) ws ->
  remove_first (str "data: ") (ws ++ str "data: " ++ payload) = ws ++ payload.
Proof.
  induction 1 as [|c ws Hc _ IH].
  - cbn [app]. destruct payload; reflexivity.
  - cbn [app remove_first].
    change (startsWith (str "data: ") (c :: ws ++ str "data: " ++ payload))
      with (N.eqb 100 c
            && startsWith (str "ata: ") (ws ++ str "data: " ++ payload))%bool.
    rewrite (@space_not_d _ Hc). cbn [andb]. now rewrite IH.
Qed.

(** X21: a line made of white space, the prefix [data: ] and a payload is
    decoded from its payload alone, trimmed: the end marker when that is
    [[DONE]], what [JSON.parse] makes of it otherwise (the prefix removed by
    [replace] is the leading one, whatever the payload holds); and such a
    line passes the filter of the loop whenever its payload is not blank. *)
Theorem decode_line_payload (parse : jsstring -> option jsstring)
  (ws payload : jsstring) :
  Forall (fun c => is_space c = true) ws ->
  let line := ws ++ str "data: " ++ payload in
  decode_line parse line
  = (if Js.eqb (trim payload) (str "[DONE]") then LDone
     else match parse (trim payload) with
          | Some content => LContent content
          | None => LBad
          end)
  /\ (trim payload <> [] ->
      startsWith (str "data: ") (trim line) = true).
Proof.
  intros Hws. cbv zeta. split.
  - unfold decode_line. cbv zeta.
    rewrite (@remove_first_after_spaces _ payload Hws).
    replace (trim (ws ++ payload)) with (trim payload); [reflexivity|].
    unfold trim. now rewrite (@drop_while_spaces _ payload Hws).
  - intros Hp. unfold trim.
    rewrite (@drop_while_spaces _ (str "data: " ++ payload) Hws).
    change (drop_while is_space (str "data: " ++ payload))
      with (str "data: " ++ payload).
    rewrite rev_app_distr, drop_while_app_keep, rev_app_distr.
    + change (rev (rev (str "data: "))) with (str "data: ").
      apply startsWith_app.
    + intros E. apply Hp. unfold trim.
      apply drop_while_nil_Forall, Forall_rev in E.
      rewrite rev_involutive in E.
      now rewrite (@Forall_drop_while_nil _ _ E).
Qed.

Lemma decode_line_payload_witness :
  decode_line (fun _ => None) (str "  data: [DONE] ") = LDone.
Proof.
  destruct (@decode_line_payload (fun _ => None) (str "  ") (str "[DONE] "))
    as (H & _); [repeat constructor|].
  exact H.
Defined.
